(** * The Facebook SDK loader and the Embedded Signup launcher

    A shallow embedding of
    - [src/composable/use-facebook-sdk-v2.ts] (module [Loader]): the
      module-level singletons, [_injectScript], [_initSDK], [_finalise],
      [loadSDK] and [resetSDK];
    - [src/components/FacebookSignUp.vue] (module [Launcher]): [_onMessage],
      [launchSignup] and the callback handed to [FB.login].

    The code is event driven.  Every synchronous piece of it (a call of the
    public API, an event handler, a timer callback, the resumption of an
    [await]) is a function from world to world; the browser is the list of
    events that drives them.  A run may take the events in any order, also
    in orders no browser produces (a timer before the pending microtasks),
    so what holds of every run holds of every execution.

    Left out: the [console] output, the template of the component, and what
    the SDK does beyond [FB.init] returning or throwing. *)

From Stdlib Require Import String List Bool Arith ZArith NArith Lia.
Import ListNotations.
Local Open Scope string_scope.
Local Open Scope list_scope.

Set Implicit Arguments.
#[local] Set Warnings "-register-all".

(** ** JavaScript scaffolding shared by the two modules *)

(** A promise is pending, fulfilled (always with [undefined] here) or
    rejected with an [Error]. *)
Record Error := mkError { message : string }.

Inductive PromiseState :=
| Pending
| Fulfilled
| Rejected (e : Error).

Definition is_pending (p : PromiseState) : bool :=
  match p with Pending => true | _ => false end.

(** [FacebookInitParams] of the source. *)
Record FacebookInitParams := mkInitParams {
  init_appId : string;
  init_version : string;
  init_xfbml : bool;
  init_cookie : bool
}.

(** [FacebookStatic], the object the remote script stores in [window.FB].
    The loader only calls [init] on it; what the call does is the SDK's
    business, so the object carries it: [None] when [init] returns, [Some m]
    when it throws a value whose message is [m].  [fb_name] tells two SDK
    objects apart. *)
Record FacebookStatic := mkFB {
  fb_name : nat;
  fb_init : FacebookInitParams -> option string
}.

Module Loader.

(** *** Options and the composable's closure *)

Record FacebookSDKOptions := mkOptions {
  opt_appId : option string;
  opt_version : option string;
  opt_xfbml : option bool;
  opt_cookie : option bool;
  opt_debug : option bool
}.

(** The destructured, defaulted options every inner function of one
    [useFacebookSDK(options)] call closes over. *)
Record Composable := mkComposable {
  appId : string;
  version : string;
  xfbml : bool;
  cookie : bool;
  debug : bool
}.

Definition default {A} (d : A) (o : option A) : A :=
  match o with Some a => a | None => d end.

(** [DEV] is [import.meta.env.DEV]. *)
Definition useFacebookSDK (DEV : bool) (options : FacebookSDKOptions) : Composable :=
  {| appId := default "" (opt_appId options);
     version := default "v21.0" (opt_version options);
     xfbml := default false (opt_xfbml options);
     cookie := default false (opt_cookie options);
     debug := default DEV (opt_debug options) |}.

Definition SDK_SCRIPT_ID := "facebook-jssdk".
Definition SDK_URL := "https://connect.facebook.net/en_US/sdk.js".
Definition SDK_DEBUG_URL := "https://connect.facebook.net/en_US/sdk/debug.js".
Definition INIT_TIMEOUT_MS : N := 10000%N.

(** *** The document *)

(** The elements of the document, in document order.  Only the tag name, the
    id and the [src] of an element matter to the loader. *)
Record Element := mkElement {
  tagName : string;
  elem_id : string;
  elem_src : string
}.

Definition Document := list Element.

Definition is_script (e : Element) : bool := tagName e =? "script".
Definition has_id (i : string) (e : Element) : bool := elem_id e =? i.

(** [document.getElementById(i)] *)
Definition getElementById (i : string) (d : Document) : option Element :=
  find (has_id i) d.

(** [parent.insertBefore(node, ref)] where [ref] is the first script element
    of the document: [node] lands right before it.  Nothing is inserted when
    the document has no script element ([firstScript?.parentNode?.]). *)
Fixpoint insertBeforeFirstScript (node : Element) (d : Document) : Document :=
  match d with
  | [] => []
  | e :: d' =>
      if is_script e then node :: e :: d'
      else e :: insertBeforeFirstScript node d'
  end.

(** [existing.remove()] for [existing = document.getElementById(i)].  The
    document is flat here: the element goes alone.  Children that an
    element of the page with this id might have, and that [remove()] would
    take along, are not modelled; the script the loader inserts has none. *)
Fixpoint removeById (i : string) (d : Document) : Document :=
  match d with
  | [] => []
  | e :: d' => if has_id i e then d' else e :: removeById i d'
  end.

(** *** Closures, timers and the pending loads *)

(** The value of [window.fbAsyncInit]: [undefined], a function of somebody
    else, or the arrow function [_initSDK] installs for the load [l], which
    captured the previous value in [previousInit]. *)
Inductive Hook :=
| NoHook
| ForeignHook
| LoaderHook (l : nat) (previousInit : Hook).

Inductive Timer :=
| NoTimer
| Armed
| Cleared
| Fired.

(** Where the body of the async arrow function of [loadSDK] stands. *)
Inductive Stage :=
| AwaitInject             (* suspended at [await _injectScript()] *)
| AwaitInit               (* suspended at [await _initSDK()] *)
| Done (r : PromiseState) (* returned or thrown: its promise is settled *).

(** One activation of the async arrow function of [loadSDK], with the
    objects it created: the promise of [_injectScript], the script element,
    the promise of [_initSDK], and the [settled] flag and timer of the
    latter. *)
Record Load := mkLoad {
  self : Composable;
  stage : Stage;
  inject : PromiseState;
  script : option Element;   (* the element created, when inserted *)
  init : PromiseState;
  settled : bool;
  timeout : Timer
}.

(** The promise the async arrow function returned. *)
Definition promise_of (t : Load) : PromiseState :=
  match stage t with
  | Done r => r
  | _ => Pending
  end.

(** What the outside world can observe the loader do. *)
Inductive Effect :=
| InsertScript (e : Element)
| RemoveScript
| FBInit (p : FacebookInitParams).

(** *** The world *)

Record World := mkWorld {
  (* module-level singletons *)
  _FB : option FacebookStatic;
  _isReady : bool;
  _isLoading : bool;
  _error : option Error;
  _loadPromise : option nat;       (* the load whose promise it holds *)
  (* globals of the page *)
  window_FB : option FacebookStatic;
  window_fbAsyncInit : Hook;
  document : Document;
  (* the run-time system *)
  loads : list Load;               (* every load started so far *)
  microtasks : list nat;           (* loads whose [await] may resume *)
  effects : list Effect            (* log, oldest first *)
}.

Definition initial (d : Document) : World :=
  {| _FB := None; _isReady := false; _isLoading := false; _error := None;
     _loadPromise := None;
     window_FB := None; window_fbAsyncInit := NoHook; document := d;
     loads := []; microtasks := []; effects := [] |}.

(** Field updates. *)
Definition set_FB v w := mkWorld v (_isReady w) (_isLoading w) (_error w) (_loadPromise w) (window_FB w) (window_fbAsyncInit w) (document w) (loads w) (microtasks w) (effects w).
Definition set_isReady v w := mkWorld (_FB w) v (_isLoading w) (_error w) (_loadPromise w) (window_FB w) (window_fbAsyncInit w) (document w) (loads w) (microtasks w) (effects w).
Definition set_isLoading v w := mkWorld (_FB w) (_isReady w) v (_error w) (_loadPromise w) (window_FB w) (window_fbAsyncInit w) (document w) (loads w) (microtasks w) (effects w).
Definition set_error v w := mkWorld (_FB w) (_isReady w) (_isLoading w) v (_loadPromise w) (window_FB w) (window_fbAsyncInit w) (document w) (loads w) (microtasks w) (effects w).
Definition set_loadPromise v w := mkWorld (_FB w) (_isReady w) (_isLoading w) (_error w) v (window_FB w) (window_fbAsyncInit w) (document w) (loads w) (microtasks w) (effects w).
Definition set_window_FB v w := mkWorld (_FB w) (_isReady w) (_isLoading w) (_error w) (_loadPromise w) v (window_fbAsyncInit w) (document w) (loads w) (microtasks w) (effects w).
Definition set_window_fbAsyncInit v w := mkWorld (_FB w) (_isReady w) (_isLoading w) (_error w) (_loadPromise w) (window_FB w) v (document w) (loads w) (microtasks w) (effects w).
Definition set_document v w := mkWorld (_FB w) (_isReady w) (_isLoading w) (_error w) (_loadPromise w) (window_FB w) (window_fbAsyncInit w) v (loads w) (microtasks w) (effects w).
Definition set_loads v w := mkWorld (_FB w) (_isReady w) (_isLoading w) (_error w) (_loadPromise w) (window_FB w) (window_fbAsyncInit w) (document w) v (microtasks w) (effects w).
Definition set_microtasks v w := mkWorld (_FB w) (_isReady w) (_isLoading w) (_error w) (_loadPromise w) (window_FB w) (window_fbAsyncInit w) (document w) (loads w) v (effects w).
Definition log (e : Effect) w := mkWorld (_FB w) (_isReady w) (_isLoading w) (_error w) (_loadPromise w) (window_FB w) (window_fbAsyncInit w) (document w) (loads w) (microtasks w) (effects w ++ [e]).

Definition enqueue (l : nat) w := set_microtasks (microtasks w ++ [l]) w.

(** Updates of one load. *)
Definition set_stage v t := mkLoad (self t) v (inject t) (script t) (init t) (settled t) (timeout t).
Definition set_inject v t := mkLoad (self t) (stage t) v (script t) (init t) (settled t) (timeout t).
Definition set_init v t := mkLoad (self t) (stage t) (inject t) (script t) v (settled t) (timeout t).
Definition set_settled v t := mkLoad (self t) (stage t) (inject t) (script t) (init t) v (timeout t).
Definition set_timeout v t := mkLoad (self t) (stage t) (inject t) (script t) (init t) (settled t) v.

Definition get_load (l : nat) (w : World) : option Load := nth_error (loads w) l.

Fixpoint alter {A} (f : A -> A) (i : nat) (xs : list A) : list A :=
  match xs, i with
  | [], _ => []
  | x :: xs', 0 => f x :: xs'
  | x :: xs', S j => x :: alter f j xs'
  end.

Definition alter_load (l : nat) (f : Load -> Load) (w : World) : World :=
  set_loads (alter f l (loads w)) w.

(** The promise of load [l], as a later world shows it. *)
Definition promise (l : nat) (w : World) : PromiseState :=
  match get_load l w with
  | Some t => promise_of t
  | None => Pending
  end.

(** *** Error values of the source *)

Definition ScriptLoadError (src : string) : Error :=
  mkError ("[useFacebookSDK] Failed to load SDK from " ++ src).

Definition MissingAppId : Error :=
  mkError ("[useFacebookSDK] No App ID provided. " ++
           "Pass `appId` to useFacebookSDK() or set VITE_META_APP_ID in your .env file.").

Definition InitTimeout : Error :=
  mkError ("[useFacebookSDK] Timed out waiting for fbAsyncInit. " ++
           "Check that connect.facebook.net is not blocked.").

Definition InitException (m : string) : Error :=
  mkError ("[useFacebookSDK] FB.init() threw: " ++ m).

(** What a call of [window.fbAsyncInit] meets that is not the loader's:
    whether the hook of the page, when the chain ends in one, throws (what
    else it does is of no concern to the loader), and the message of the
    [TypeError] the engine raises for [window.FB.init] on a [window.FB]
    that is [undefined], which every engine words its own way. *)
Record HookCall := mkHookCall {
  page_throws : bool;
  type_error : string
}.

(** *** [_injectScript] *)

(** The element [_injectScript] creates.  [async], [defer] and [crossOrigin]
    are attributes the model has no use for. *)
Definition sdk_script (c : Composable) : Element :=
  {| tagName := "script";
     elem_id := SDK_SCRIPT_ID;
     elem_src := if debug c then SDK_DEBUG_URL else SDK_URL |}.

(** Returns the world, the state of the promise it hands back and the
    element when one went into the document.  With a tag of that id in the
    document the promise is [Promise.resolve()].  Otherwise the element is
    created and goes before the first script element; a document without
    any script element takes nothing, and the promise then stays pending
    for ever, as no load or error event fires on a detached script. *)
Definition _injectScript (c : Composable) (w : World)
  : World * PromiseState * option Element :=
  match getElementById SDK_SCRIPT_ID (document w) with
  | Some _ => (w, Fulfilled, None)
  | None =>
      let script := sdk_script c in
      match find is_script (document w) with
      | Some firstScript =>
          (log (InsertScript script)
             (set_document (insertBeforeFirstScript script (document w)) w),
           Pending, Some script)
      | None => (w, Pending, None)
      end
  end.

(** *** [_finalise] *)

Definition _finalise (w : World) : World :=
  let w := set_FB (window_FB w) w in
  let w := set_isReady true w in
  let w := set_isLoading false w in
  set_error None w.

(** *** [_initSDK] *)

(** The executor of the promise of [_initSDK], run for the load [l] of the
    composable [c]; the state of the promise is kept in [init]. *)
Definition _initSDK (c : Composable) (l : nat) (w : World) : World :=
  if _isReady w then alter_load l (set_init Fulfilled) w
  else if appId c =? "" then alter_load l (set_init (Rejected MissingAppId)) w
  else match window_FB w with
       | Some _ => alter_load l (set_init Fulfilled) (_finalise w)
       | None =>
           let w := alter_load l (set_settled false) w in
           let w := alter_load l (set_timeout Armed) w in
           set_window_fbAsyncInit (LoaderHook l (window_fbAsyncInit w)) w
       end.

(** [resolve()] or [reject(e)] of the promise of [_injectScript] from a
    handler of the script element: the first call settles it and queues the
    resumption of the body that awaits it. *)
Definition settle_inject (l : nat) (r : PromiseState) (w : World) : World :=
  match get_load l w with
  | Some t =>
      if is_pending (inject t) then enqueue l (alter_load l (set_inject r) w)
      else w
  | None => w
  end.

(** The same for the promise of [_initSDK], from the timer or the hook. *)
Definition settle_init (l : nat) (r : PromiseState) (w : World) : World :=
  match get_load l w with
  | Some t =>
      if is_pending (init t) then enqueue l (alter_load l (set_init r) w)
      else w
  | None => w
  end.

(** The callback of [setTimeout] in [_initSDK]. *)
Definition on_timeout (l : nat) (w : World) : World :=
  match get_load l w with
  | Some t =>
      match timeout t with
      | Armed =>
          let w := alter_load l (set_timeout Fired) w in
          if settled t then w
          else settle_init l (Rejected InitTimeout)
                 (alter_load l (set_settled true) w)
      | _ => w
      end
  | None => w
  end.

Definition clearTimeout (t : Load) : Load :=
  match timeout t with
  | Armed => set_timeout Cleared t
  | _ => t
  end.

(** [if (!settled) { settled = true; clearTimeout(timeout); resolve() }] and
    its twin with [reject] in the [catch] of the hook. *)
Definition settle_once (l : nat) (r : PromiseState) (w : World) : World :=
  match get_load l w with
  | Some t =>
      if settled t then w
      else
        let w := alter_load l (set_settled true) w in
        let w := alter_load l clearTimeout w in
        settle_init l r w
  | None => w
  end.

(** [{ appId: appId!, version, xfbml, cookie }] *)
Definition init_params (c : Composable) : FacebookInitParams :=
  {| init_appId := appId c; init_version := version c;
     init_xfbml := xfbml c; init_cookie := cookie c |}.

(** A call of the function [h], which returns the world it leaves and
    whether it threw.  The arrow function [_initSDK] stored in
    [window.fbAsyncInit] first runs the hook it replaced, outside its
    [try]: what that hook throws goes up to the caller, and nothing more is
    done.  Then, in the [try], come [FB.init] and [_finalise]; the [catch]
    takes whatever these throw, so that the arrow function itself throws
    nothing. *)
Fixpoint call_hook (k : HookCall) (h : Hook) (w : World) : World * bool :=
  match h with
  | NoHook => (w, false)
  | ForeignHook => (w, page_throws k)
  | LoaderHook l previousInit =>
      let (w, thrown) := call_hook k previousInit w in
      if thrown then (w, true)
      else
        (match get_load l w with
         | None => w
         | Some t =>
             match window_FB w with
             | None => settle_once l (Rejected (InitException (type_error k))) w
             | Some fb =>
                 let p := init_params (self t) in
                 let w := log (FBInit p) w in
                 match fb_init fb p with
                 | Some m => settle_once l (Rejected (InitException m)) w
                 | None => settle_once l Fulfilled (_finalise w)
                 end
             end
         end, false)
  end.

(** *** [loadSDK] *)

(** The [catch] block of the async arrow function. *)
Definition catch (err : Error) (l : nat) (w : World) : World :=
  let w := set_isLoading false w in
  let w := set_isReady false w in
  let w := set_error (Some err) w in
  let w := set_loadPromise None w in
  alter_load l (set_stage (Done (Rejected err))) w.

(** [await p] on a promise that is already settled resumes in a microtask. *)
Definition await (l : nat) (p : PromiseState) (w : World) : World :=
  if is_pending p then w else enqueue l w.

(** The resumption of the body of the async arrow function of load [l]. *)
Definition resume (l : nat) (w : World) : World :=
  match get_load l w with
  | None => w
  | Some t =>
      match stage t with
      | AwaitInject =>
          match inject t with
          | Pending => w
          | Fulfilled =>
              let w := alter_load l (set_stage AwaitInit) w in
              let w := _initSDK (self t) l w in
              await l (match get_load l w with
                       | Some t' => init t'
                       | None => Pending
                       end) w
          | Rejected err => catch err l w
          end
      | AwaitInit =>
          match init t with
          | Pending => w
          | Fulfilled => alter_load l (set_stage (Done Fulfilled)) w
          | Rejected err => catch err l w
          end
      | Done _ => w
      end
  end.

(** What the promise [loadSDK] returns is resolved with: [undefined], or the
    promise in [_loadPromise], whose fate it then shares. *)
Inductive Returned :=
| Nothing
| LoadPromise (l : nat).

(** The fate of a returned promise in the world [w]. *)
Definition outcome (r : Returned) (w : World) : PromiseState :=
  match r with
  | Nothing => Fulfilled
  | LoadPromise l => promise l w
  end.

Definition loadSDK (c : Composable) (w : World) : World * Returned :=
  if _isReady w then (w, Nothing)
  else match _loadPromise w with
       | Some l => (w, LoadPromise l)
       | None =>
           let w := set_isLoading true w in
           let w := set_error None w in
           (* the async arrow function runs up to its first [await] *)
           let l := length (loads w) in
           let '(w, p, script) := _injectScript c w in
           let w := set_loads (loads w ++ [mkLoad c AwaitInject p script Pending false NoTimer]) w in
           let w := await l p w in
           let w := set_loadPromise (Some l) w in
           (w, LoadPromise l)
       end.

(** *** [resetSDK] *)

Definition resetSDK (w : World) : World :=
  let w := match getElementById SDK_SCRIPT_ID (document w) with
           | Some existing =>
               log RemoveScript
                 (set_document (removeById SDK_SCRIPT_ID (document w)) w)
           | None => w
           end in
  let w := set_FB None w in
  let w := set_isReady false w in
  let w := set_isLoading false w in
  let w := set_error None w in
  let w := set_loadPromise None w in
  let w := set_window_FB None w in
  set_window_fbAsyncInit NoHook w.

(** *** The browser *)

Inductive Event :=
| CallLoadSDK (c : Composable)   (* [loadSDK()] of the composable [c] *)
| CallResetSDK                   (* [resetSDK()] *)
| Microtask                      (* the next job of the microtask queue *)
| ScriptLoad (l : nat)           (* [onload] of the script of load [l] *)
| ScriptError (l : nat)          (* [onerror] of the script of load [l] *)
| Timeout (l : nat)              (* the timer of load [l] expires *)
| AssignFB (fb : FacebookStatic) (* the remote script sets [window.FB] *)
| AssignHook                     (* foreign code sets [window.fbAsyncInit] *)
| CallHook (k : HookCall)        (* [window.fbAsyncInit()] *).

Definition step (e : Event) (w : World) : World :=
  match e with
  | CallLoadSDK c => fst (loadSDK c w)
  | CallResetSDK => resetSDK w
  | Microtask =>
      match microtasks w with
      | [] => w
      | l :: rest => resume l (set_microtasks rest w)
      end
  | ScriptLoad l =>
      match get_load l w with
      | Some t =>
          match script t with
          | Some _ => settle_inject l Fulfilled w
          | None => w
          end
      | None => w
      end
  | ScriptError l =>
      match get_load l w with
      | Some t =>
          match script t with
          | Some s => settle_inject l (Rejected (ScriptLoadError (elem_src s))) w
          | None => w
          end
      | None => w
      end
  | Timeout l => on_timeout l w
  | AssignFB fb => set_window_FB (Some fb) w
  | AssignHook => set_window_fbAsyncInit ForeignHook w
  | CallHook k => fst (call_hook k (window_fbAsyncInit w) w)
  end.

Definition run (es : list Event) (w : World) : World :=
  fold_left (fun w e => step e w) es w.

(** *** The state machine of the spec *)

Definition ready (w : World) : Prop := _isReady w = true.
Definition loading (w : World) : Prop := _isLoading w = true.
Definition idle (w : World) : Prop := _isLoading w = false /\ _isReady w = false.

(** [Failed] is [idle] with an error. *)
Definition failed (w : World) (err : Error) : Prop :=
  idle w /\ _error w = Some err /\ _loadPromise w = None.

Definition exactly_one (P Q R : Prop) : Prop :=
  (P /\ ~ Q /\ ~ R) \/ (~ P /\ Q /\ ~ R) \/ (~ P /\ ~ Q /\ R).

Definition invariant (w : World) : Prop :=
  (ready w -> _FB w <> None /\ _error w = None) /\
  (loading w -> ~ ready w) /\
  exactly_one (loading w) (ready w) (idle w).

(** A load is in flight: the loader is not ready and [_loadPromise] holds
    the promise of the load [l]. *)
Definition in_flight (l : nat) (w : World) : Prop :=
  _isReady w = false /\ _loadPromise w = Some l.





(** The script insertions and the [FB.init] calls of a log. *)
Definition insertions (log : list Effect) : nat :=
  length (filter (fun e => match e with InsertScript _ => true | _ => false end) log).

Definition init_calls (log : list Effect) : nat :=
  length (filter (fun e => match e with FBInit _ => true | _ => false end) log).

(** *** Frames *)

(** [w'] has the singletons of [w]. *)
Definition same_singletons (w w' : World) : Prop :=
  _FB w' = _FB w /\ _isReady w' = _isReady w /\ _isLoading w' = _isLoading w /\
  _error w' = _error w /\ _loadPromise w' = _loadPromise w.


(** [t'] is a later state of the activation [t]: the same closure, and a
    promise that was settled is settled the same way. *)
Definition evolves (t t' : Load) : Prop :=
  self t' = self t /\ (forall r, stage t = Done r -> stage t' = Done r).

(** Every load of [w] is there in [w'], in a later state. *)
Definition keeps_loads (w w' : World) : Prop :=
  forall n t, get_load n w = Some t ->
              exists t', get_load n w' = Some t' /\ evolves t t'.

(** A hook that is none of the loader's. *)
Definition not_ours (h : Hook) : bool :=
  match h with
  | LoaderHook _ _ => false
  | _ => true
  end.

(** The chain of [h] ends in a hook of the page. *)
Fixpoint page_hooked (h : Hook) : bool :=
  match h with
  | NoHook => false
  | ForeignHook => true
  | LoaderHook _ previousInit => page_hooked previousInit
  end.

(** The call [k] of the hook [h] is cut short: the hook of the page, the
    first to run, throws. *)
Definition aborts (k : HookCall) (h : Hook) : bool :=
  page_hooked h && page_throws k.

(** *** Landmarks of a first load *)

(** The world right after the [loadSDK()] that started a load in [w] and
    put the script of [c] into the document. *)
Definition injected (c : Composable) (w : World) : World :=
  {| _FB := _FB w; _isReady := false; _isLoading := true; _error := None;
     _loadPromise := Some (length (loads w));
     window_FB := window_FB w; window_fbAsyncInit := window_fbAsyncInit w;
     document := insertBeforeFirstScript (sdk_script c) (document w);
     loads := loads w ++
              [mkLoad c AwaitInject Pending (Some (sdk_script c)) Pending false NoTimer];
     microtasks := [];
     effects := effects w ++ [InsertScript (sdk_script c)] |}.

(** ... after the load event of that script: the body may resume. *)
Definition script_loaded (c : Composable) (w : World) : World :=
  {| _FB := _FB w; _isReady := false; _isLoading := true; _error := None;
     _loadPromise := Some (length (loads w));
     window_FB := window_FB w; window_fbAsyncInit := window_fbAsyncInit w;
     document := insertBeforeFirstScript (sdk_script c) (document w);
     loads := loads w ++
              [mkLoad c AwaitInject Fulfilled (Some (sdk_script c)) Pending false NoTimer];
     microtasks := [length (loads w)];
     effects := effects w ++ [InsertScript (sdk_script c)] |}.

(** ... after the body resumed and [_initSDK] installed its hook and timer. *)
Definition waiting (c : Composable) (w : World) : World :=
  {| _FB := _FB w; _isReady := false; _isLoading := true; _error := None;
     _loadPromise := Some (length (loads w));
     window_FB := None;
     window_fbAsyncInit := LoaderHook (length (loads w)) (window_fbAsyncInit w);
     document := insertBeforeFirstScript (sdk_script c) (document w);
     loads := loads w ++
              [mkLoad c AwaitInit Fulfilled (Some (sdk_script c)) Pending false Armed];
     microtasks := [];
     effects := effects w ++ [InsertScript (sdk_script c)] |}.

(** ... and, from there, after the SDK set [window.FB] to [fb], called the
    hook, and the body resumed: the load is done. *)
Definition loaded (c : Composable) (fb : FacebookStatic) (w : World) : World :=
  {| _FB := Some fb; _isReady := true; _isLoading := false; _error := None;
     _loadPromise := Some (length (loads w));
     window_FB := Some fb;
     window_fbAsyncInit := LoaderHook (length (loads w)) (window_fbAsyncInit w);
     document := insertBeforeFirstScript (sdk_script c) (document w);
     loads := loads w ++
              [mkLoad c (Done Fulfilled) Fulfilled (Some (sdk_script c)) Fulfilled true Cleared];
     microtasks := [];
     effects := effects w ++ [InsertScript (sdk_script c); FBInit (init_params c)] |}.

(** ... or, from [waiting], after the timer expired and the body resumed in
    its [catch]: the load has failed. *)
Definition timed_out (c : Composable) (w : World) : World :=
  {| _FB := _FB w; _isReady := false; _isLoading := false;
     _error := Some InitTimeout;
     _loadPromise := None;
     window_FB := None;
     window_fbAsyncInit := LoaderHook (length (loads w)) (window_fbAsyncInit w);
     document := insertBeforeFirstScript (sdk_script c) (document w);
     loads := loads w ++
              [mkLoad c (Done (Rejected InitTimeout)) Fulfilled (Some (sdk_script c))
                 (Rejected InitTimeout) true Fired];
     microtasks := [];
     effects := effects w ++ [InsertScript (sdk_script c)] |}.


(** *** Sample inputs *)

(** The page of the application: its root and the module script. *)
Definition sample_document : Document :=
  [mkElement "div" "app" ""; mkElement "script" "" "/src/main.ts"].

(** The composable of [main.ts], with and without an App ID. *)
Definition sample_composable : Composable :=
  useFacebookSDK false (mkOptions (Some "1234567890") (Some "v25.0")
                          (Some false) (Some false) (Some false)).

Definition anonymous_composable : Composable :=
  useFacebookSDK false (mkOptions None (Some "v25.0")
                          (Some false) (Some false) (Some false)).

Definition sample_FB : FacebookStatic := mkFB 1 (fun _ => None).

(** The wording of one engine for the [TypeError] of [window.FB.init] on an
    [undefined] [window.FB], for the examples. *)
Definition FB_UNDEFINED : string :=
  "Cannot read properties of undefined (reading 'init')".

(** A call of the hook on a page whose own hook, if it has one, returns,
    and one on a page whose hook throws. *)
Definition plain_call : HookCall := mkHookCall false FB_UNDEFINED.
Definition thrown_call : HookCall := mkHookCall true FB_UNDEFINED.




(** *** More of the state machine *)

(** What the flags tell about the error and the pending promise: a loading
    loader shows no error and holds a promise; a loader that shows an error
    is neither ready nor loading and holds no promise. *)
Definition consistent (w : World) : Prop :=
  (_isLoading w = true -> _error w = None /\ _loadPromise w <> None) /\
  (_error w <> None ->
   _isReady w = false /\ _isLoading w = false /\ _loadPromise w = None).

(** The elements of a document that carry the id of the SDK script. *)
Definition sdk_tags (d : Document) : nat :=
  length (filter (has_id SDK_SCRIPT_ID) d).

(** A load whose script never went into the document: its body waits for a
    promise that no event can settle. *)
Definition stuck (t : Load) : Prop :=
  stage t = AwaitInject /\ inject t = Pending /\ script t = None.

(** [w'] keeps the stuck loads of [w]. *)
Definition keeps_stuck (w w' : World) : Prop :=
  forall n t, get_load n w = Some t -> stuck t ->
              exists t', get_load n w' = Some t' /\ stuck t'.

(** The loader hooks of a chain, outermost first. *)
Fixpoint hooked (h : Hook) : list nat :=
  match h with
  | LoaderHook l previousInit => l :: hooked previousInit
  | _ => []
  end.

(** Every load chained in [window.fbAsyncInit] is a load of the world. *)
Definition hook_wf (w : World) : Prop :=
  forall l, In l (hooked (window_fbAsyncInit w)) -> get_load l w <> None.

(** A run in which [resetSDK] is never called. *)
Definition no_reset (es : list Event) : bool :=
  forallb (fun e => match e with CallResetSDK => false | _ => true end) es.

(** Loads come one at a time: a load whose promise is pending is the one
    [_loadPromise] holds; when its [_initSDK] promise is fulfilled the
    loader is ready; and once a load is fulfilled the loader is ready and no
    load is pending. *)
Definition serial (w : World) : Prop :=
  (forall l t, get_load l w = Some t -> promise_of t = Pending ->
               _loadPromise w = Some l) /\
  (forall l t, get_load l w = Some t -> promise_of t = Pending ->
               init t = Fulfilled -> _isReady w = true) /\
  (forall l t, get_load l w = Some t -> promise_of t = Fulfilled ->
               _isReady w = true /\
               forall l' t', get_load l' w = Some t' -> promise_of t' <> Pending).

(** From [w] to [w'] no promise of a load was settled and none was started,
    and what was ready is ready. *)
Definition calm (w w' : World) : Prop :=
  _loadPromise w' = _loadPromise w /\
  (_isReady w = true -> _isReady w' = true) /\
  forall l t', get_load l w' = Some t' ->
    exists t, get_load l w = Some t /\ promise_of t' = promise_of t /\
              (init t' = Fulfilled -> init t = Fulfilled \/ _isReady w' = true).

(** An SDK whose [init] throws [m]. *)
Definition broken_FB (m : string) : FacebookStatic := mkFB 2 (fun _ => Some m).

(** A document without any script element. *)
Definition scriptless_document : Document := [mkElement "div" "app" ""].

End Loader.

(** ** The launcher: [FacebookSignUp.vue] *)

Module Launcher.

(** *** JavaScript values *)

(** What [event.data] of a message event, or the result of [JSON.parse], can
    be.  The launcher never looks into a number, so any carrier does. *)
Inductive JSValue :=
| JSUndefined
| JSNull
| JSBool (b : bool)
| JSNumber (n : Z)
| JSString (s : string)
| JSArray (items : list JSValue)
| JSObject (fields : list (string * JSValue)).

Fixpoint lookup (k : string) (fields : list (string * JSValue)) : JSValue :=
  match fields with
  | [] => JSUndefined
  | (k', v) :: rest => if k' =? k then v else lookup k rest
  end.

(** [v.k] for the property names the launcher reads ([type], [event], [data],
    [phone_number_id], [waba_id], [current_step]): a [TypeError] ([None]) on
    [undefined] and [null], the field of an object, and [undefined] on every
    other value, none of which has a property of one of these names. *)
Definition get (v : JSValue) (k : string) : option JSValue :=
  match v with
  | JSUndefined | JSNull => None
  | JSObject fields => Some (lookup k fields)
  | _ => Some JSUndefined
  end.

(** [v === s] for a string literal [s]. *)
Definition is_str (s : string) (v : JSValue) : bool :=
  match v with
  | JSString s' => s' =? s
  | _ => false
  end.

(** *** Types of the component *)

(** [FacebookAuthResponse]; the launcher reads [code] and [accessToken]. *)
Record FacebookAuthResponse := mkAuth {
  code : option string;
  accessToken : option string;
  userID : string;
  expiresIn : Z;
  signedRequest : string
}.

Inductive Status := connected | not_authorized | unknown.

Record FacebookLoginResponse := mkResponse {
  authResponse : option FacebookAuthResponse;
  status : Status
}.

(** [FacebookLoginOptions], as far as [launchSignup] fills it. *)
Record FacebookLoginOptions := mkLoginOptions {
  config_id : option string;
  response_type : string;
  override_default_response_type : bool;
  extras : JSValue
}.

(** The payload of the [success] event.  [code] is [code ?? accessToken],
    which the source asserts to be a string. *)
Record Success := mkSuccess {
  success_code : option string;
  wabaId : JSValue;
  phoneNumberId : JSValue
}.

(** [emit(...)]: the event and its arguments.  [cancel] has one argument or
    none. *)
Inductive Emitted :=
| success (response : Success)
| cancel (currentStep : option JSValue)
| error (err : Error).

(** What the component does to the outside, in order. *)
Inductive Action :=
| AddListener                        (* window.addEventListener('message', _onMessage) *)
| RemoveListener                     (* window.removeEventListener('message', _onMessage) *)
| Login (fb : nat) (options : FacebookLoginOptions) (* FB.value.login(callback, options) *)
| Emit (e : Emitted).

(** One instance of the component: the session buffer, whether [_onMessage]
    is registered on [window], and the log of its actions, oldest first. *)
Record Component := mkComponent {
  configId : option string;               (* props.configId *)
  _sessionData : list (string * JSValue); (* an object literal *)
  listening : bool;
  actions : list Action
}.

Definition mounted (configId : option string) : Component :=
  {| configId := configId; _sessionData := []; listening := false; actions := [] |}.

Definition set_sessionData v c := mkComponent (configId c) v (listening c) (actions c).
Definition set_listening v c := mkComponent (configId c) (_sessionData c) v (actions c).
Definition act (a : Action) c := mkComponent (configId c) (_sessionData c) (listening c) (actions c ++ [a]).

Definition NO_CREDENTIAL : Error :=
  mkError "[SignupLauncher] No auth code or token in FB.login() response.".

Definition emit (e : Emitted) (c : Component) : Component := act (Emit e) c.

Definition addEventListener (c : Component) : Component :=
  act AddListener (set_listening true c).

Definition removeEventListener (c : Component) : Component :=
  act RemoveListener (set_listening false c).

(** The events a run of the component emitted. *)
Fixpoint emitted (l : list Action) : list Emitted :=
  match l with
  | [] => []
  | Emit e :: l' => e :: emitted l'
  | _ :: l' => emitted l'
  end.

(** *** The [try] block *)

(** Statements of the [try] block of [_onMessage]: a statement runs on the
    component and returns a value, or throws ([None]); the state it had
    reached by then stays. *)
Definition Try (A : Type) : Type := Component -> Component * option A.

Definition ret {A} (a : A) : Try A := fun c => (c, Some a).

Definition bind {A B} (x : Try A) (f : A -> Try B) : Try B :=
  fun c =>
    match x c with
    | (c', Some a) => f a c'
    | (c', None) => (c', None)
    end.

(** An expression that may throw and changes nothing. *)
Definition eval {A} (o : option A) : Try A := fun c => (c, o).

(** A statement that changes the component. *)
Definition exec (f : Component -> Component) : Try unit :=
  fun c => (f c, Some tt).

Notation "x <- e ;; k" := (bind e (fun x => k))
  (at level 61, e at next level, right associativity).
Notation "e ;;; k" := (bind e (fun _ => k))
  (at level 61, right associativity).

Definition SENTINEL := "WA_EMBEDDED_SIGNUP".

Section WithParser.

(** [JSON.parse]: [None] when it throws. *)
Variable JSON_parse : string -> option JSValue.

(** [typeof event.data === 'string' ? JSON.parse(event.data) : event.data] *)
Definition payload_of (data : JSValue) : option JSValue :=
  match data with
  | JSString s => JSON_parse s
  | _ => Some data
  end.

(** The body of the [try] of [_onMessage] on [event.data]. *)
Definition onMessage_try (data : JSValue) : Try unit :=
  payload <- eval (payload_of data) ;;
  type <- eval (get payload "type") ;;
  if negb (is_str SENTINEL type) then ret tt
  else
    event <- eval (get payload "event") ;;
    (if is_str "FINISH" event then
       d <- eval (get payload "data") ;;
       phone_number_id <- eval (get d "phone_number_id") ;;
       d <- eval (get payload "data") ;;
       waba_id <- eval (get d "waba_id") ;;
       exec (set_sessionData [("phone_number_id", phone_number_id);
                              ("waba_id", waba_id)])
     else ret tt) ;;;
    event <- eval (get payload "event") ;;
    if is_str "CANCEL" event || is_str "ERROR" event then
      d <- eval (get payload "data") ;;
      current_step <- eval (get d "current_step") ;;
      exec (emit (cancel (Some current_step)))
    else ret tt.

(** [_onMessage]: the [catch] swallows whatever the block threw. *)
Definition _onMessage (data : JSValue) (c : Component) : Component :=
  fst (onMessage_try data c).

(** *** [launchSignup] and the login callback *)

(** [!s] for an optional string. *)
Definition falsy (s : option string) : bool :=
  match s with
  | None => true
  | Some s => s =? ""
  end.

Definition login_options (c : Component) : FacebookLoginOptions :=
  {| config_id := configId c;
     response_type := "code";
     override_default_response_type := true;
     extras := JSObject [("setup", JSObject []);
                         ("featureType", JSString "");
                         ("sessionInfoVersion", JSString "3")] |}.

(** [launchSignup], with the refs [FB] and [isReady] of the loader. *)
Definition launchSignup (w : Loader.World) (c : Component) : Component :=
  match Loader._FB w with
  | None => c
  | Some fb =>
      if negb (Loader._isReady w) then c
      else
        let c := set_sessionData [] c in
        let c := addEventListener c in
        act (Login (fb_name fb) (login_options c)) c
  end.

(** The arrow function handed to [FB.login]. *)
Definition login_callback (response : FacebookLoginResponse) (c : Component) : Component :=
  let c := removeEventListener c in
  match authResponse response with
  | None => emit (cancel None) c
  | Some auth =>
      if falsy (code auth) && falsy (accessToken auth) then
        emit (error NO_CREDENTIAL) c
      else
        emit (success {| success_code := match code auth with
                                         | Some x => Some x
                                         | None => accessToken auth
                                         end;
                         wabaId := lookup "waba_id" (_sessionData c);
                         phoneNumberId := lookup "phone_number_id" (_sessionData c) |}) c
  end.

(** *** The browser, as the component sees it *)

Inductive Event :=
| Click                                   (* the button calls [launchSignup] *)
| Message (data : JSValue)                (* a message event on [window] *)
| Callback (response : FacebookLoginResponse) (* the SDK calls the login callback *).

(** [window] hands a message event to [_onMessage] while it is registered. *)
Definition step (w : Loader.World) (e : Event) (c : Component) : Component :=
  match e with
  | Click => launchSignup w c
  | Message data => if listening c then _onMessage data c else c
  | Callback response => login_callback response c
  end.

Definition run (w : Loader.World) (es : list Event) (c : Component) : Component :=
  fold_left (fun c e => step w e c) es c.

(** A message whose payload is a [FINISH] of the signup protocol: the only
    messages [_onMessage] may write the session buffer for. *)
Definition is_finish (data : JSValue) : bool :=
  match payload_of data with
  | Some payload =>
      match get payload "type", get payload "event" with
      | Some type, Some event => is_str SENTINEL type && is_str "FINISH" event
      | _, _ => false
      end
  | None => false
  end.

End WithParser.

(** *** Sample inputs *)

(** A [JSON.parse] for the examples: it rejects every text.  The examples
    post structured data, which [_onMessage] takes as it is. *)
Definition reject_all (s : string) : option JSValue := None.

(** A message of the protocol, as Meta's popup posts it. *)
Definition protocol_message (event : string) (data : list (string * JSValue)) : JSValue :=
  JSObject [("type", JSString SENTINEL);
            ("event", JSString event);
            ("data", JSObject data);
            ("version", JSString "3")].

Definition finish_W1_P1 : JSValue :=
  protocol_message "FINISH" [("phone_number_id", JSString "P1");
                             ("waba_id", JSString "W1")].

(** A [CANCEL] of the protocol that lacks its [data]. *)
Definition cancel_without_data : JSValue :=
  JSObject [("type", JSString SENTINEL); ("event", JSString "CANCEL")].

Definition auth_abc : FacebookAuthResponse :=
  mkAuth (Some "abc") None "user" 3600%Z "signed".

Definition auth_empty : FacebookAuthResponse :=
  mkAuth None None "user" 3600%Z "signed".

(** A loader that is ready, as [main.ts] leaves it when the SDK loaded. *)
Definition ready_loader : Loader.World :=
  Loader.loaded Loader.sample_composable Loader.sample_FB
    (Loader.initial Loader.sample_document).

(** *** The computed state and the template *)

(** [isDisabled], bound to [disabled] of the button. *)
Definition isDisabled (w : Loader.World) : bool :=
  negb (Loader._isReady w) || Loader._isLoading w.

(** [buttonLabel], for the label [props.buttonLabel]. *)
Definition buttonLabel (w : Loader.World) (label : string) : string :=
  if Loader._isLoading w then "Loading SDK…"
  else if negb (Loader._isReady w) then "Unavailable"
  else label.

(** The default of [props.buttonLabel]. *)
Definition DEFAULT_LABEL := "Connect WhatsApp Business".

(** The paragraph [<p v-if="error" role="alert">]: the message shown, if
    any. *)
Definition alert (w : Loader.World) : option string :=
  option_map message (Loader._error w).

(** A cancellation and an error of the protocol. *)
Definition cancel_at_step : JSValue :=
  protocol_message "CANCEL" [("current_step", JSString "PHONE_NUMBER_SETUP")].

(** An [authResponse] with an empty [code] and an access token. *)
Definition auth_empty_code : FacebookAuthResponse :=
  mkAuth (Some "") (Some "token") "user" 3600%Z "signed".

End Launcher.

(** * Properties of the launcher *)

Module LauncherFacts.
Import Launcher.

(** Case analysis over the [match]es and [if]s of a goal. *)
Ltac split_cases :=
  repeat (match goal with
          | |- context [Launcher.payload_of ?p ?d] =>
              destruct (Launcher.payload_of p d) eqn:?
          | |- context [get ?v ?k] => destruct (get v k) eqn:?
          | |- context [is_str ?s ?v] => destruct (is_str s v) eqn:?
          end;
          cbn [fst snd negb orb andb]).

(** C7.  A launch while the loader is not ready, or while it holds no SDK
    handle, is a no-op: [launchSignup] returns with the component as it
    was, so nothing is registered, [FB.login] is not called, no event is
    emitted, and nothing is thrown. *)
Theorem launch_when_not_ready_is_noop :
  forall (w : Loader.World) (c : Component),
    Loader._isReady w = false \/ Loader._FB w = None ->
    launchSignup w c = c /\
    emitted (actions (launchSignup w c)) = emitted (actions c).
Proof.
  intros w c H.
  assert (E : launchSignup w c = c).
  { destruct H as [H|H]; unfold launchSignup; rewrite H.
    - now destruct (Loader._FB w).
    - reflexivity. }
  now rewrite E.
Qed.

Lemma launch_when_not_ready_is_noop_witness :
  launchSignup (Loader.initial []) (mounted (Some "cfg")) = mounted (Some "cfg").
Proof.
  apply launch_when_not_ready_is_noop. left. reflexivity.
Defined.

(** C4.  Every run of the login callback first unregisters the listener and
    then emits exactly one event.  Without an [authResponse] that event is
    [cancel] with no argument.  With an [authResponse] whose [code] and
    [accessToken] are both missing (or empty, which [!] treats alike) it is
    [error] with the message of [NO_CREDENTIAL].  Nothing else is done in
    these two branches. *)
Theorem callback_without_credential :
  forall (resp : FacebookLoginResponse) (c : Component),
    (exists e, actions (login_callback resp c)
               = actions c ++ [RemoveListener; Emit e]) /\
    listening (login_callback resp c) = false /\
    _sessionData (login_callback resp c) = _sessionData c /\
    (authResponse resp = None ->
     actions (login_callback resp c)
     = actions c ++ [RemoveListener; Emit (cancel None)]) /\
    (forall auth,
        authResponse resp = Some auth ->
        falsy (code auth) && falsy (accessToken auth) = true ->
        actions (login_callback resp c)
        = actions c ++ [RemoveListener; Emit (error NO_CREDENTIAL)]) /\
    message NO_CREDENTIAL
    = "[SignupLauncher] No auth code or token in FB.login() response.".
Proof.
  intros resp c. unfold login_callback.
  destruct (authResponse resp) as [auth|];
    [destruct (falsy (code auth) && falsy (accessToken auth)) eqn:G|];
    cbn; rewrite <- app_assoc; cbn;
    (split; [eexists; reflexivity|]);
    (split; [reflexivity|]);
    (split; [reflexivity|]);
    (split; [intros H; first [discriminate H | reflexivity]|]);
    (split; [|reflexivity]);
    intros a Ha Hg; first [discriminate Ha | injection Ha as <-];
    first [reflexivity | congruence].
Qed.

Lemma callback_without_credential_witness :
  actions (login_callback (mkResponse None unknown) (mounted None))
  = [RemoveListener; Emit (cancel None)] /\
  actions (login_callback (mkResponse (Some auth_empty) connected) (mounted None))
  = [RemoveListener; Emit (error NO_CREDENTIAL)].
Proof.
  destruct (callback_without_credential (mkResponse None unknown) (mounted None))
    as (_ & _ & _ & H1 & _).
  destruct (callback_without_credential
              (mkResponse (Some auth_empty) connected) (mounted None))
    as (_ & _ & _ & _ & H2 & _).
  split.
  - apply H1. reflexivity.
  - apply (H2 auth_empty); reflexivity.
Defined.

Section WithParser.

Variable JSON_parse : string -> option JSValue.

Abbreviation payload_of := (payload_of JSON_parse).
Abbreviation _onMessage := (_onMessage JSON_parse).
Abbreviation is_finish := (is_finish JSON_parse).
Abbreviation run := (run JSON_parse).

(** [_onMessage] never touches the registration of the listener. *)
Lemma onMessage_listening data c :
  listening (_onMessage data c) = listening c.
Proof.
  unfold _onMessage, onMessage_try, bind, eval, ret, exec.
  split_cases; reflexivity.
Qed.

(** Only a [FINISH] of the protocol writes the session buffer. *)
Lemma onMessage_keeps_buffer data c :
  is_finish data = false -> _sessionData (_onMessage data c) = _sessionData c.
Proof.
  unfold is_finish, _onMessage, onMessage_try, bind, eval, ret, exec.
  split_cases; intros H; try reflexivity; try discriminate.
Qed.

(** What a well-formed [FINISH] does. *)
Lemma onMessage_finish data payload d wid pid c :
  payload_of data = Some payload ->
  get payload "type" = Some (JSString SENTINEL) ->
  get payload "event" = Some (JSString "FINISH") ->
  get payload "data" = Some d ->
  get d "waba_id" = Some wid ->
  get d "phone_number_id" = Some pid ->
  _onMessage data c =
  set_sessionData [("phone_number_id", pid); ("waba_id", wid)] c.
Proof.
  intros Hp Ht He Hd Hw Hi.
  unfold _onMessage, onMessage_try, bind, eval, ret, exec.
  rewrite Hp, Ht. cbn. rewrite He. cbn. rewrite Hd, Hi, Hw. reflexivity.
Qed.

Lemma launch_run_app w es1 es2 c :
  run w (es1 ++ es2) c = run w es2 (run w es1 c).
Proof. unfold Launcher.run. apply fold_left_app. Qed.

Lemma launch_run_cons w e es c :
  run w (e :: es) c = run w es (Launcher.step JSON_parse w e c).
Proof. reflexivity. Qed.

(** Messages leave the listener registered. *)
Lemma run_messages_listening w msgs c :
  listening (run w (map Message msgs) c) = listening c.
Proof.
  revert c. induction msgs as [|m msgs IH]; intros c; [reflexivity|].
  cbn [map]. rewrite launch_run_cons, IH. cbn [Launcher.step].
  destruct (listening c) eqn:E; [|exact E].
  now rewrite onMessage_listening.
Qed.

(** Messages other than a [FINISH] leave the buffer alone. *)
Lemma run_messages_buffer w msgs c :
  Forall (fun m => is_finish m = false) msgs ->
  _sessionData (run w (map Message msgs) c) = _sessionData c.
Proof.
  intros H. revert c. induction H as [|m msgs Hm _ IH]; intros c; [reflexivity|].
  cbn [map]. rewrite launch_run_cons, IH. cbn [Launcher.step].
  destruct (listening c); [|reflexivity].
  now apply onMessage_keeps_buffer.
Qed.

(** The callback on an authorization payload with a credential. *)
Lemma login_callback_success resp auth c :
  authResponse resp = Some auth ->
  falsy (code auth) && falsy (accessToken auth) = false ->
  actions (login_callback resp c) =
  actions c ++
  [RemoveListener;
   Emit (success {| success_code := match code auth with
                                    | Some x => Some x
                                    | None => accessToken auth
                                    end;
                    wabaId := lookup "waba_id" (_sessionData c);
                    phoneNumberId := lookup "phone_number_id" (_sessionData c) |})].
Proof.
  intros Ha Hg. unfold login_callback. rewrite Ha. cbn. rewrite Hg. cbn.
  now rewrite <- app_assoc.
Qed.

(** The state in which the callback of a launch finds the component when,
    after the click, the messages [pre], then the [FINISH] message [fin],
    then the messages [post] have reached the listener. *)
Lemma buffer_after_finish w fb c pre fin payload d wid pid post :
  Loader._FB w = Some fb ->
  Loader._isReady w = true ->
  payload_of fin = Some payload ->
  get payload "type" = Some (JSString SENTINEL) ->
  get payload "event" = Some (JSString "FINISH") ->
  get payload "data" = Some d ->
  get d "waba_id" = Some wid ->
  get d "phone_number_id" = Some pid ->
  Forall (fun m => is_finish m = false) post ->
  _sessionData (run w (Click :: map Message pre ++ Message fin :: map Message post) c)
  = [("phone_number_id", pid); ("waba_id", wid)].
Proof.
  intros Hfb Hr Hp Ht He Hd Hw Hi Hpost.
  change (Click :: map Message pre ++ Message fin :: map Message post)
    with ([Click] ++ map Message pre ++ [Message fin] ++ map Message post).
  rewrite !launch_run_app.
  rewrite run_messages_buffer by assumption.
  set (c1 := Launcher.run JSON_parse w [Click] c).
  assert (L1 : listening c1 = true).
  { subst c1. cbn. unfold launchSignup. rewrite Hfb, Hr. reflexivity. }
  set (c2 := Launcher.run JSON_parse w (map Message pre) c1).
  assert (L2 : listening c2 = true).
  { subst c2. now rewrite run_messages_listening. }
  rewrite launch_run_cons. cbn [Launcher.step Launcher.run fold_left]. rewrite L2.
  now rewrite (onMessage_finish _ c2 Hp Ht He Hd Hw Hi).
Qed.

(** C1.  A launch from a ready loader in which the listener receives a
    [FINISH] message carrying [waba_id] W1 and [phone_number_id] P1 (after
    any messages, and followed by any messages that are no [FINISH]) before
    the login callback fires with an [authResponse] whose [code] is abc:
    the callback unregisters the listener and emits [success] with the code
    abc, W1 as [wabaId] (the business account of the spec) and P1 as
    [phoneNumberId].  Whatever the credentials, the code emitted is the
    [code] field when there is one and the access token otherwise. *)
Theorem finish_then_callback_emits_success :
  forall w fb c pre fin payload d post resp auth,
    Loader._FB w = Some fb ->
    Loader._isReady w = true ->
    payload_of fin = Some payload ->
    get payload "type" = Some (JSString SENTINEL) ->
    get payload "event" = Some (JSString "FINISH") ->
    get payload "data" = Some d ->
    get d "waba_id" = Some (JSString "W1") ->
    get d "phone_number_id" = Some (JSString "P1") ->
    Forall (fun m => is_finish m = false) post ->
    authResponse resp = Some auth ->
    let before :=
      run w (Click :: map Message pre ++ Message fin :: map Message post) c in
    (code auth = Some "abc" ->
     actions (Launcher.step JSON_parse w (Callback resp) before) =
     actions before ++
     [RemoveListener;
      Emit (success {| success_code := Some "abc";
                       wabaId := JSString "W1";
                       phoneNumberId := JSString "P1" |})])
    /\
    (falsy (code auth) && falsy (accessToken auth) = false ->
     actions (Launcher.step JSON_parse w (Callback resp) before) =
     actions before ++
     [RemoveListener;
      Emit (success {| success_code := match code auth with
                                       | Some x => Some x
                                       | None => accessToken auth
                                       end;
                       wabaId := JSString "W1";
                       phoneNumberId := JSString "P1" |})]).
Proof.
  intros w fb c pre fin payload d post resp auth
         Hfb Hr Hp Ht He Hd Hw Hi Hpost Ha before.
  assert (B : _sessionData before = [("phone_number_id", JSString "P1"); ("waba_id", JSString "W1")]).
  { subst before. eapply buffer_after_finish; eassumption. }
  assert (G : falsy (code auth) && falsy (accessToken auth) = false ->
              actions (Launcher.step JSON_parse w (Callback resp) before) =
              actions before ++
              [RemoveListener;
               Emit (success {| success_code := match code auth with
                                                | Some x => Some x
                                                | None => accessToken auth
                                                end;
                                wabaId := JSString "W1";
                                phoneNumberId := JSString "P1" |})]).
  { intros Hg. cbn [Launcher.step].
    rewrite (login_callback_success _ _ Ha Hg), B. reflexivity. }
  split; [|exact G].
  intros Hc. rewrite G; rewrite Hc; reflexivity.
Qed.

(** C8, amended.  A message whose payload has the type [SENTINEL], the
    sub-event [CANCEL] or [ERROR] and a [data] that is neither [null] nor
    [undefined] makes the listener emit [cancel] with [data.current_step],
    whatever the component went through before (the callback fired or not),
    and do nothing else.  A payload with another type, and a string that
    [JSON.parse] rejects, leave the component as it was: no event, the
    session buffer untouched. *)
Theorem message_cancel_or_ignored :
  forall (data : JSValue) (c : Component),
    (forall payload event d current_step,
        payload_of data = Some payload ->
        get payload "type" = Some (JSString SENTINEL) ->
        get payload "event" = Some (JSString event) ->
        event = "CANCEL" \/ event = "ERROR" ->
        get payload "data" = Some d ->
        get d "current_step" = Some current_step ->
        _onMessage data c = emit (cancel (Some current_step)) c) /\
    (forall payload type,
        payload_of data = Some payload ->
        get payload "type" = Some type ->
        is_str SENTINEL type = false ->
        _onMessage data c = c) /\
    (forall s,
        data = JSString s ->
        JSON_parse s = None ->
        _onMessage data c = c).
Proof.
  intros data c. repeat split.
  - intros payload event d current_step Hp Ht He Hev Hd Hs.
    unfold _onMessage, onMessage_try, bind, eval, ret, exec.
    rewrite Hp, Ht. cbn. rewrite He.
    destruct Hev; subst event; cbn; rewrite Hd, Hs; reflexivity.
  - intros payload type Hp Ht Hn.
    unfold _onMessage, onMessage_try, bind, eval, ret, exec.
    rewrite Hp, Ht, Hn. reflexivity.
  - intros s -> Hs.
    unfold _onMessage, onMessage_try, bind, eval, ret, exec.
    cbn. rewrite Hs. reflexivity.
Qed.

End WithParser.

Lemma message_cancel_or_ignored_witness :
  _onMessage reject_all
    (protocol_message "CANCEL" [("current_step", JSString "PHONE_NUMBER_SETUP")])
    (mounted None)
  = emit (cancel (Some (JSString "PHONE_NUMBER_SETUP"))) (mounted None)
  /\
  _onMessage reject_all
    (JSObject [("type", JSString "OTHER"); ("event", JSString "CANCEL")])
    (mounted None)
  = mounted None
  /\
  _onMessage reject_all (JSString "not json") (mounted None) = mounted None.
Proof.
  split; [|split].
  - destruct (message_cancel_or_ignored reject_all
                (protocol_message "CANCEL" [("current_step", JSString "PHONE_NUMBER_SETUP")])
                (mounted None)) as (H & _ & _).
    eapply H; [reflexivity | reflexivity | reflexivity | left; reflexivity
              | reflexivity | reflexivity].
  - destruct (message_cancel_or_ignored reject_all
                (JSObject [("type", JSString "OTHER"); ("event", JSString "CANCEL")])
                (mounted None)) as (_ & H & _).
    eapply H; reflexivity.
  - destruct (message_cancel_or_ignored reject_all (JSString "not json")
                (mounted None)) as (_ & _ & H).
    eapply H; reflexivity.
Defined.

(** C8 as the spec has it fails on a [CANCEL] of the protocol that has no
    [data]: [payload.data.current_step] throws, the [catch] swallows the
    [TypeError], and no [cancel] is emitted. *)
Lemma cancel_without_data_emits_nothing :
  get cancel_without_data "type" = Some (JSString SENTINEL) /\
  get cancel_without_data "event" = Some (JSString "CANCEL") /\
  _onMessage reject_all cancel_without_data (mounted None) = mounted None /\
  emitted (actions (_onMessage reject_all cancel_without_data (mounted None))) = [].
Proof. repeat split. Qed.

Lemma finish_then_callback_emits_success_witness :
  emitted (actions (run reject_all ready_loader
                      [Click; Message finish_W1_P1;
                       Callback (mkResponse (Some auth_abc) connected)]
                      (mounted None)))
  = [success {| success_code := Some "abc";
                wabaId := JSString "W1";
                phoneNumberId := JSString "P1" |}].
Proof.
  destruct (@finish_then_callback_emits_success reject_all ready_loader
              Loader.sample_FB (mounted None) [] finish_W1_P1 finish_W1_P1
              (JSObject [("phone_number_id", JSString "P1"); ("waba_id", JSString "W1")])
              [] (mkResponse (Some auth_abc) connected) auth_abc
              eq_refl eq_refl eq_refl eq_refl eq_refl eq_refl eq_refl eq_refl
              (Forall_nil _) eq_refl) as [H _].
  change (run reject_all ready_loader
            [Click; Message finish_W1_P1;
             Callback (mkResponse (Some auth_abc) connected)] (mounted None))
    with (Launcher.step reject_all ready_loader
            (Callback (mkResponse (Some auth_abc) connected))
            (run reject_all ready_loader
               (Click :: map Message [] ++ Message finish_W1_P1 :: map Message [])
               (mounted None))).
  rewrite (H eq_refl). reflexivity.
Defined.

End LauncherFacts.

(** * Properties of the loader *)

Module LoaderFacts.
Import Loader.

(** ** Loads by index *)

Lemma nth_error_alter {A} (f : A -> A) i j (xs : list A) :
  nth_error (alter f i xs) j =
  if Nat.eqb i j then option_map f (nth_error xs j) else nth_error xs j.
Proof.
  revert i j. induction xs as [|x xs IH]; intros [|i] [|j]; cbn; try reflexivity.
  - now destruct (Nat.eqb i j).
  - apply IH.
Qed.

Lemma length_alter {A} (f : A -> A) i (xs : list A) :
  length (alter f i xs) = length xs.
Proof.
  revert i. induction xs as [|x xs IH]; intros [|i]; cbn; auto.
Qed.

Lemma nth_error_last {A} (xs : list A) (x : A) :
  nth_error (xs ++ [x]) (length xs) = Some x.
Proof. induction xs; cbn; auto. Qed.

Lemma alter_last {A} (f : A -> A) (xs : list A) (x : A) :
  alter f (length xs) (xs ++ [x]) = xs ++ [f x].
Proof. induction xs; cbn; congruence. Qed.

(** ** The four flags *)

Lemma same_singletons_refl w : same_singletons w w.
Proof. repeat split. Qed.

Lemma same_singletons_trans w1 w2 w3 :
  same_singletons w1 w2 -> same_singletons w2 w3 -> same_singletons w1 w3.
Proof. unfold same_singletons. intuition congruence. Qed.

Lemma settle_inject_singletons l r w : same_singletons w (settle_inject l r w).
Proof.
  unfold settle_inject. destruct (get_load l w) as [t|]; [|apply same_singletons_refl].
  destruct (is_pending (inject t)); repeat split.
Qed.

Lemma settle_init_singletons l r w : same_singletons w (settle_init l r w).
Proof.
  unfold settle_init. destruct (get_load l w) as [t|]; [|apply same_singletons_refl].
  destruct (is_pending (init t)); repeat split.
Qed.

Lemma on_timeout_singletons l w : same_singletons w (on_timeout l w).
Proof.
  unfold on_timeout. destruct (get_load l w) as [t|]; [|apply same_singletons_refl].
  destruct (timeout t); try apply same_singletons_refl.
  destruct (settled t); [repeat split|].
  eapply same_singletons_trans; [|apply settle_init_singletons]. repeat split.
Qed.

Lemma settle_once_singletons l r w : same_singletons w (settle_once l r w).
Proof.
  unfold settle_once. destruct (get_load l w) as [t|]; [|apply same_singletons_refl].
  destruct (settled t); [apply same_singletons_refl|].
  eapply same_singletons_trans; [|apply settle_init_singletons]. repeat split.
Qed.

Lemma invariant_same w w' :
  same_singletons w w' -> invariant w -> invariant w'.
Proof.
  unfold same_singletons, invariant, exactly_one, ready, loading, idle.
  intros (-> & -> & -> & -> & _). auto.
Qed.

Lemma invariant_finalise w fb :
  window_FB w = Some fb -> invariant (_finalise w).
Proof.
  intros H. unfold invariant, exactly_one, ready, loading, idle, _finalise. cbn.
  rewrite H. intuition congruence.
Qed.

Lemma invariant_catch err l w : invariant (catch err l w).
Proof.
  unfold invariant, exactly_one, ready, loading, idle, catch. cbn.
  intuition congruence.
Qed.

Lemma invariant_initSDK c l w : invariant w -> invariant (_initSDK c l w).
Proof.
  intros I. unfold _initSDK.
  destruct (_isReady w); [revert I; apply invariant_same; repeat split|].
  destruct (appId c =? ""); [revert I; apply invariant_same; repeat split|].
  destruct (window_FB w) as [fb|] eqn:E.
  - apply invariant_same with (w := _finalise w); [repeat split|].
    now apply invariant_finalise with fb.
  - revert I; apply invariant_same; repeat split.
Qed.

Lemma invariant_resume l w : invariant w -> invariant (resume l w).
Proof.
  intros I. unfold resume.
  destruct (get_load l w) as [t|]; [|exact I].
  destruct (stage t); [| |exact I].
  - destruct (inject t); [exact I| |apply invariant_catch].
    unfold await.
    match goal with
    | |- invariant (if ?b then ?x else _) =>
        assert (J : invariant x); [|destruct b; [exact J|revert J; apply invariant_same; repeat split]]
    end.
    apply invariant_initSDK. revert I. apply invariant_same. repeat split.
  - destruct (init t); [exact I| |apply invariant_catch].
    revert I. apply invariant_same. repeat split.
Qed.

Lemma invariant_call_hook k h w :
  invariant w -> invariant (fst (call_hook k h w)).
Proof.
  revert w. induction h as [| |l prev IH]; intros w I; cbn [call_hook fst];
    try exact I.
  specialize (IH w I). destruct (call_hook k prev w) as [w1 thrown].
  cbn [fst] in IH. destruct thrown; cbn [fst]; [exact IH|].
  destruct (get_load l w1) as [t|]; [|exact IH].
  destruct (window_FB w1) as [fb|] eqn:E.
  - destruct (fb_init fb _).
    + eapply invariant_same; [apply settle_once_singletons|].
      revert IH. apply invariant_same. repeat split.
    + eapply invariant_same; [apply settle_once_singletons|].
      apply invariant_finalise with fb. exact E.
  - eapply invariant_same; [apply settle_once_singletons|exact IH].
Qed.

Lemma injectScript_singletons c w :
  same_singletons w (fst (fst (_injectScript c w))).
Proof.
  unfold _injectScript. destruct (getElementById _ _); [apply same_singletons_refl|].
  destruct (find _ _); repeat split.
Qed.

Lemma invariant_loadSDK c w : invariant w -> invariant (fst (loadSDK c w)).
Proof.
  intros I. unfold loadSDK.
  destruct (_isReady w) eqn:R; [exact I|].
  destruct (_loadPromise w); [exact I|].
  pose proof (injectScript_singletons c (set_error None (set_isLoading true w))) as S.
  destruct (_injectScript c (set_error None (set_isLoading true w))) as [[w1 p] s].
  cbn in S. destruct S as (S1 & S2 & S3 & S4 & S5). cbn in S1, S2, S3, S4, S5.
  unfold await. destruct (is_pending p);
    unfold invariant, exactly_one, ready, loading, idle; cbn;
    rewrite S2, S3, S4, R; intuition congruence.
Qed.

Lemma invariant_resetSDK w : invariant (resetSDK w).
Proof.
  unfold resetSDK, invariant, exactly_one, ready, loading, idle. cbn.
  intuition congruence.
Qed.

(** Every step of the loader and of the browser keeps the invariant. *)
Lemma invariant_step e w : invariant w -> invariant (step e w).
Proof.
  intros I. destruct e; cbn.
  - now apply invariant_loadSDK.
  - apply invariant_resetSDK.
  - destruct (microtasks w); [exact I|]. apply invariant_resume.
    revert I. apply invariant_same. repeat split.
  - destruct (get_load l w) as [t|]; [|exact I]. destruct (script t); [|exact I].
    eapply invariant_same; [apply settle_inject_singletons|exact I].
  - destruct (get_load l w) as [t|]; [|exact I]. destruct (script t); [|exact I].
    eapply invariant_same; [apply settle_inject_singletons|exact I].
  - eapply invariant_same; [apply on_timeout_singletons|exact I].
  - revert I. apply invariant_same. repeat split.
  - revert I. apply invariant_same. repeat split.
  - now apply invariant_call_hook.
Qed.

Lemma invariant_initial d : invariant (initial d).
Proof.
  unfold invariant, exactly_one, ready, loading, idle. cbn. intuition congruence.
Qed.

(** C2.  The invariant of the loader state holds in every world the loader
    can reach from the start of the page, whatever the calls of [loadSDK]
    and [resetSDK], the resumptions, the script and timer events and the
    calls of the hook, and each single step keeps it: a ready loader holds
    the SDK handle and no error, a loading loader is not ready, and the
    loader is in exactly one of loading, ready and idle. *)
Theorem loader_invariant :
  (forall (d : Document) (es : list Event), invariant (run es (initial d))) /\
  (forall (e : Event) (w : World), invariant w -> invariant (step e w)).
Proof.
  split; [|intros e w; apply invariant_step].
  intros d es. unfold run.
  generalize (invariant_initial d). generalize (initial d).
  induction es as [|e es IH]; intros w I; cbn; [exact I|].
  apply IH. now apply invariant_step.
Qed.

Lemma loader_invariant_witness :
  invariant (step (CallLoadSDK sample_composable) (initial sample_document)).
Proof.
  apply (proj2 loader_invariant). apply (proj1 loader_invariant _ []).
Defined.

(** C9.  [loadSDK()] on a ready loader returns at its first line: the world
    is the one it was called in (document, flags, error, handle, pending
    loads and log alike), and the promise returned is fulfilled at once. *)
Theorem loadSDK_when_ready_is_noop :
  forall (c : Composable) (w : World),
    _isReady w = true ->
    loadSDK c w = (w, Nothing) /\
    (forall w', outcome (snd (loadSDK c w)) w' = Fulfilled).
Proof.
  intros c w R. unfold loadSDK. rewrite R. split; reflexivity.
Qed.

Lemma loadSDK_when_ready_is_noop_witness :
  loadSDK anonymous_composable
    (run [CallLoadSDK sample_composable; ScriptLoad 0; Microtask;
          AssignFB sample_FB; CallHook plain_call; Microtask] (initial sample_document))
  = (run [CallLoadSDK sample_composable; ScriptLoad 0; Microtask;
          AssignFB sample_FB; CallHook plain_call; Microtask] (initial sample_document),
     Nothing).
Proof.
  apply loadSDK_when_ready_is_noop. reflexivity.
Defined.

(** C6.  The failure of a load (the [catch] of [loadSDK]) leaves the loader
    failed: idle, the error stored, [_loadPromise] dropped.  On a failed
    loader the next [loadSDK()] clears the error, turns [_isLoading] on and
    starts a new activation, which calls [_injectScript] again and waits for
    its promise; the promise returned is the one of this new load.  So no
    failure locks the loader. *)
Theorem loadSDK_retries_after_failure :
  (forall (err : Error) (l : nat) (w : World), failed (catch err l w) err) /\
  (forall (c : Composable) (w : World) (err : Error),
      failed w err ->
      let w' := fst (loadSDK c w) in
      let n := length (loads w) in
      let injected := _injectScript c (set_error None (set_isLoading true w)) in
      _error w' = None /\
      _isLoading w' = true /\
      _isReady w' = false /\
      _loadPromise w' = Some n /\
      snd (loadSDK c w) = LoadPromise n /\
      loads w' = loads w ++ [mkLoad c AwaitInject (snd (fst injected))
                               (snd injected) Pending false NoTimer] /\
      document w' = document (fst (fst injected)) /\
      promise n w' = Pending).
Proof.
  split.
  - intros err l w. repeat split.
  - intros c w err ((L & R) & E & P) w' n injected.
    subst w' injected. unfold loadSDK. rewrite R, P.
    pose proof (injectScript_singletons c (set_error None (set_isLoading true w))) as S.
    assert (LD : loads (fst (fst (_injectScript c (set_error None (set_isLoading true w))))) = loads w).
    { unfold _injectScript. destruct (getElementById _ _); [reflexivity|].
      destruct (find _ _); reflexivity. }
    destruct (_injectScript c (set_error None (set_isLoading true w))) as [[w1 p] s].
    cbn in S, LD. destruct S as (S1 & S2 & S3 & S4 & S5). cbn in S1, S2, S3, S4, S5.
    unfold await. subst n.
    destruct (is_pending p); cbn; rewrite ?S2, ?S3, ?S4, ?LD;
      repeat split; auto;
      unfold promise, get_load; cbn; rewrite ?LD, nth_error_last; reflexivity.
Qed.

Lemma loadSDK_retries_after_failure_witness :
  _error (fst (loadSDK sample_composable
                 (run [CallLoadSDK anonymous_composable; ScriptLoad 0;
                       Microtask; Microtask] (initial sample_document))))
  = None.
Proof.
  refine (proj1 (proj2 loadSDK_retries_after_failure sample_composable
                   (run [CallLoadSDK anonymous_composable; ScriptLoad 0;
                         Microtask; Microtask] (initial sample_document))
                   MissingAppId _)).
  repeat split.
Defined.

(** A retry after the script failed to load finds the tag of the failed
    attempt in the document: [_injectScript] resolves at once, no script is
    inserted or fetched again, and the new load waits for a hook. *)
Lemma retry_after_script_error_reuses_the_tag :
  insertions (effects (run [CallLoadSDK sample_composable; ScriptError 0; Microtask;
                            CallLoadSDK sample_composable; Microtask]
                         (initial sample_document))) = 1 /\
  promise 1 (run [CallLoadSDK sample_composable; ScriptError 0; Microtask;
                  CallLoadSDK sample_composable; Microtask]
               (initial sample_document)) = Pending /\
  window_fbAsyncInit (run [CallLoadSDK sample_composable; ScriptError 0; Microtask;
                           CallLoadSDK sample_composable; Microtask]
                        (initial sample_document)) = LoaderHook 1 NoHook.
Proof. vm_compute. repeat split. Qed.

(** ** Steps that start no load *)



Lemma insertions_app xs ys : insertions (xs ++ ys) = insertions xs + insertions ys.
Proof. unfold insertions. now rewrite filter_app, length_app. Qed.













(** ** Calls while a load is in flight *)

Lemma loadSDK_in_flight c l w :
  in_flight l w -> loadSDK c w = (w, LoadPromise l).
Proof. intros [R P]. unfold loadSDK. now rewrite R, P. Qed.

Lemma run_cons e es w : run (e :: es) w = run es (step e w).
Proof. reflexivity. Qed.

Lemma run_app es1 es2 w : run (es1 ++ es2) w = run es2 (run es1 w).
Proof. unfold run. apply fold_left_app. Qed.




(** What the first call of a load does. *)
Lemma loadSDK_starts c w :
  _isReady w = false -> _loadPromise w = None ->
  in_flight (length (loads w)) (fst (loadSDK c w)) /\
  snd (loadSDK c w) = LoadPromise (length (loads w)) /\
  length (loads (fst (loadSDK c w))) = S (length (loads w)) /\
  insertions (effects (fst (loadSDK c w))) <= S (insertions (effects w)) /\
  (getElementById SDK_SCRIPT_ID (document w) = None ->
   find is_script (document w) <> None ->
   insertions (effects (fst (loadSDK c w))) = S (insertions (effects w))).
Proof.
  intros R P. unfold loadSDK. rewrite R, P. unfold _injectScript.
  cbn [document set_error set_isLoading].
  destruct (getElementById SDK_SCRIPT_ID (document w));
    [|destruct (find is_script (document w))];
    cbn [fst snd await is_pending set_loadPromise enqueue set_loads
         set_microtasks log set_document set_error set_isLoading
         loads effects];
    rewrite ?length_app, ?insertions_app;
    change (insertions [InsertScript (sdk_script c)]) with 1;
    cbn [length];
    unfold in_flight; cbn [_isReady _loadPromise];
    (split; [split; [exact R|reflexivity]|]);
    (split; [reflexivity|]);
    (split; [lia|]);
    (split; [lia|]);
    intros H1 H2; try discriminate H1; try (now elim H2).
  lia.
Qed.

(** ** Loads stay, and settled promises stay settled *)

Lemma evolves_refl t : evolves t t.
Proof. split; auto. Qed.

Lemma keeps_loads_refl w : keeps_loads w w.
Proof. intros n t H. exists t. split; [exact H|apply evolves_refl]. Qed.

Lemma keeps_loads_trans w1 w2 w3 :
  keeps_loads w1 w2 -> keeps_loads w2 w3 -> keeps_loads w1 w3.
Proof.
  intros A B n t H. destruct (A n t H) as (t2 & H2 & E2 & S2).
  destruct (B n t2 H2) as (t3 & H3 & E3 & S3).
  exists t3. split; [exact H3|]. split; [congruence|auto].
Qed.

Lemma keeps_loads_same w w' : loads w' = loads w -> keeps_loads w w'.
Proof.
  intros E n t H. exists t. unfold get_load in *. rewrite E.
  split; [exact H|apply evolves_refl].
Qed.

(** An update of one load that is a later state of it. *)
Lemma keeps_loads_alter l f w w' :
  loads w' = alter f l (loads w) ->
  (forall t, get_load l w = Some t -> evolves t (f t)) ->
  keeps_loads w w'.
Proof.
  intros E F n t H. unfold get_load in *. rewrite E, nth_error_alter.
  destruct (Nat.eqb_spec l n) as [->|_].
  - rewrite H. cbn. exists (f t). split; [reflexivity|]. now apply F.
  - exists t. split; [exact H|apply evolves_refl].
Qed.

Lemma keeps_loads_app w w' t :
  loads w' = loads w ++ [t] -> keeps_loads w w'.
Proof.
  intros E n t0 H. exists t0. unfold get_load in *. rewrite E.
  split; [|apply evolves_refl].
  rewrite nth_error_app1; [exact H|].
  apply nth_error_Some. congruence.
Qed.

(** The updates that leave the stage alone. *)
Ltac field_update :=
  eapply keeps_loads_alter; [reflexivity|];
  let t := fresh "t" in
  intros t _; unfold clearTimeout; try destruct (timeout t);
  split; auto.

(** A move of the stage of a load whose promise is pending. *)
Lemma keeps_loads_stage l s w w' t :
  loads w' = alter (set_stage s) l (loads w) ->
  get_load l w = Some t ->
  (forall r, stage t <> Done r) ->
  keeps_loads w w'.
Proof.
  intros E H P. eapply keeps_loads_alter; [exact E|].
  intros t0 H0. assert (t0 = t) by congruence. subst t0.
  split; [reflexivity|]. intros r Hr. now elim (P r).
Qed.

Lemma settle_inject_keeps l r w : keeps_loads w (settle_inject l r w).
Proof.
  unfold settle_inject. destruct (get_load l w) as [t|]; [|apply keeps_loads_refl].
  destruct (is_pending (inject t)); [field_update|apply keeps_loads_refl].
Qed.

Lemma settle_init_keeps l r w : keeps_loads w (settle_init l r w).
Proof.
  unfold settle_init. destruct (get_load l w) as [t|]; [|apply keeps_loads_refl].
  destruct (is_pending (init t)); [field_update|apply keeps_loads_refl].
Qed.

Lemma on_timeout_keeps l w : keeps_loads w (on_timeout l w).
Proof.
  unfold on_timeout. destruct (get_load l w) as [t|]; [|apply keeps_loads_refl].
  destruct (timeout t); try apply keeps_loads_refl.
  destruct (settled t); [field_update|].
  eapply keeps_loads_trans; [|apply settle_init_keeps].
  eapply keeps_loads_trans with (w2 := alter_load l (set_timeout Fired) w);
    field_update.
Qed.

Lemma settle_once_keeps l r w : keeps_loads w (settle_once l r w).
Proof.
  unfold settle_once. destruct (get_load l w) as [t|]; [|apply keeps_loads_refl].
  destruct (settled t); [apply keeps_loads_refl|].
  eapply keeps_loads_trans; [|apply settle_init_keeps].
  eapply keeps_loads_trans with (w2 := alter_load l (set_settled true) w);
    field_update.
Qed.

Lemma initSDK_keeps c l w : keeps_loads w (_initSDK c l w).
Proof.
  unfold _initSDK.
  destruct (_isReady w); [field_update|].
  destruct (appId c =? ""); [field_update|].
  destruct (window_FB w); [field_update|].
  eapply keeps_loads_trans with (w2 := alter_load l (set_settled false) w);
    [field_update|].
  eapply keeps_loads_trans with
    (w2 := alter_load l (set_timeout Armed) (alter_load l (set_settled false) w));
    [field_update|apply keeps_loads_same; reflexivity].
Qed.

Lemma resume_keeps l w : keeps_loads w (resume l w).
Proof.
  unfold resume. destruct (get_load l w) as [t|] eqn:G; [|apply keeps_loads_refl].
  destruct (stage t) eqn:S; [| |apply keeps_loads_refl].
  - destruct (inject t); [apply keeps_loads_refl| |].
    + unfold await.
      match goal with
      | |- keeps_loads _ (if ?b then ?x else _) =>
          assert (J : keeps_loads w x);
          [|destruct b; [exact J|eapply keeps_loads_trans;
                                 [exact J|apply keeps_loads_same; reflexivity]]]
      end.
      eapply keeps_loads_trans; [|apply initSDK_keeps].
      eapply keeps_loads_stage; [reflexivity|exact G|].
      intros r. rewrite S. discriminate.
    + eapply keeps_loads_stage; [reflexivity|exact G|].
      intros r. rewrite S. discriminate.
  - destruct (init t); [apply keeps_loads_refl| |];
      (eapply keeps_loads_stage; [reflexivity|exact G|];
       intros r; rewrite S; discriminate).
Qed.

Lemma call_hook_keeps k h w :
  keeps_loads w (fst (call_hook k h w)) /\
  window_FB (fst (call_hook k h w)) = window_FB w.
Proof.
  revert w. induction h as [| |l prev IH]; intros w; cbn [call_hook fst];
    try (split; [apply keeps_loads_refl|reflexivity]).
  specialize (IH w). destruct (call_hook k prev w) as [w1 thrown].
  cbn [fst] in IH. destruct thrown; cbn [fst]; [exact IH|].
  destruct IH as [K F].
  assert (O : forall r w2, keeps_loads w1 w2 -> window_FB w2 = window_FB w1 ->
                           keeps_loads w (settle_once l r w2) /\
                           window_FB (settle_once l r w2) = window_FB w).
  { intros r w2 K2 F2. split.
    - eapply keeps_loads_trans; [exact K|].
      eapply keeps_loads_trans; [exact K2|apply settle_once_keeps].
    - rewrite <- F, <- F2. unfold settle_once.
      destruct (get_load l w2) as [t|]; [|reflexivity].
      destruct (settled t); [reflexivity|]. unfold settle_init.
      destruct (get_load l _) as [t'|]; [|reflexivity].
      destruct (is_pending (init t')); reflexivity. }
  destruct (get_load l w1) as [t|]; [|split; [exact K|exact F]].
  destruct (window_FB w1) as [fb|] eqn:E; [|apply O; [apply keeps_loads_refl|exact E]].
  destruct (fb_init fb _);
    apply O; try (apply keeps_loads_same; reflexivity); exact E.
Qed.

Lemma loadSDK_keeps c w : keeps_loads w (fst (loadSDK c w)).
Proof.
  unfold loadSDK. destruct (_isReady w); [apply keeps_loads_refl|].
  destruct (_loadPromise w); [apply keeps_loads_refl|].
  unfold _injectScript.
  destruct (getElementById _ _); [|destruct (find _ _)];
    cbn; eapply keeps_loads_app; reflexivity.
Qed.

Lemma step_keeps e w : keeps_loads w (step e w).
Proof.
  destruct e; cbn.
  - apply loadSDK_keeps.
  - unfold resetSDK. destruct (getElementById _ _); apply keeps_loads_same; reflexivity.
  - destruct (microtasks w); [apply keeps_loads_refl|].
    eapply keeps_loads_trans; [|apply resume_keeps]. apply keeps_loads_same; reflexivity.
  - destruct (get_load l w) as [t|]; [|apply keeps_loads_refl].
    destruct (script t); [apply settle_inject_keeps|apply keeps_loads_refl].
  - destruct (get_load l w) as [t|]; [|apply keeps_loads_refl].
    destruct (script t); [apply settle_inject_keeps|apply keeps_loads_refl].
  - apply on_timeout_keeps.
  - apply keeps_loads_same; reflexivity.
  - apply keeps_loads_same; reflexivity.
  - apply call_hook_keeps.
Qed.

Lemma run_keeps es w : keeps_loads w (run es w).
Proof.
  revert w. induction es as [|e es IH]; intros w; [apply keeps_loads_refl|].
  rewrite run_cons. eapply keeps_loads_trans; [apply step_keeps|apply IH].
Qed.

(** A promise that is settled stays what it is, whatever comes. *)
Lemma promise_settled_for_good n r es w :
  promise n w = r -> r <> Pending -> promise n (run es w) = r.
Proof.
  unfold promise, promise_of. intros H P.
  destruct (get_load n w) as [t|] eqn:G; [|congruence].
  destruct (run_keeps es w n G) as (t' & G' & _ & S).
  destruct (stage t) eqn:St; try congruence.
  rewrite G', (S _ eq_refl). exact H.
Qed.

(** Whether a call of a hook throws is decided by the hook of the page,
    and a call that throws has changed nothing. *)
Lemma call_hook_thrown k h w : snd (call_hook k h w) = aborts k h.
Proof.
  unfold aborts. revert w. induction h as [| |l prev IH]; intros w;
    cbn [call_hook page_hooked snd andb]; try reflexivity.
  specialize (IH w). destruct (call_hook k prev w) as [w1 thrown].
  cbn [snd] in IH. now destruct thrown.
Qed.

Lemma call_hook_aborts k h w : aborts k h = true -> call_hook k h w = (w, true).
Proof.
  unfold aborts. revert w. induction h as [| |l prev IH]; intros w;
    cbn [call_hook page_hooked andb]; intros H.
  - discriminate H.
  - now rewrite H.
  - now rewrite (IH w H).
Qed.

(** A call of the hook of the load [l], with the SDK in [window.FB] and an
    [FB.init] that returns, finalises: the handle is stored, the loader is
    ready, the error cleared.  The flag [settled] plays no part in it. *)
Lemma call_hook_finalises k l prev w t fb :
  aborts k prev = false ->
  get_load l w = Some t ->
  window_FB w = Some fb ->
  fb_init fb (init_params (self t)) = None ->
  let w' := fst (call_hook k (LoaderHook l prev) w) in
  _FB w' = Some fb /\ _isReady w' = true /\ _isLoading w' = false /\
  _error w' = None.
Proof.
  intros N G F I. cbn [call_hook].
  destruct (call_hook_keeps k prev w) as [K F1].
  pose proof (call_hook_thrown k prev w) as T. rewrite N in T.
  destruct (call_hook k prev w) as [w1 thrown]. cbn [fst snd] in K, F1, T.
  subst thrown. cbn [fst].
  destruct (K l t G) as (t1 & G1 & S1 & _).
  rewrite G1, F1, F, S1, I.
  match goal with
  | |- context [settle_once l Fulfilled ?x] =>
      destruct (settle_once_singletons l Fulfilled x) as (A & B & C & D & _)
  end.
  rewrite A, B, C, D. cbn. rewrite F1, F. auto.
Qed.

(** ** The document *)

Lemma getElementById_inserted node d :
  elem_id node = SDK_SCRIPT_ID ->
  getElementById SDK_SCRIPT_ID d = None ->
  find is_script d <> None ->
  getElementById SDK_SCRIPT_ID (insertBeforeFirstScript node d) = Some node.
Proof.
  intros Hn. unfold getElementById.
  induction d as [|e d IH]; cbn; intros H1 H2; [now elim H2|].
  destruct (has_id SDK_SCRIPT_ID e) eqn:E1; [discriminate H1|].
  destruct (is_script e) eqn:E2; cbn.
  - unfold has_id at 1. rewrite Hn. reflexivity.
  - rewrite E1. auto.
Qed.

(** ** A first load, step by step *)

Ltac norm_in H :=
  cbv beta iota zeta delta
    [step loadSDK _injectScript _initSDK _finalise resume catch
     await settle_inject settle_init settle_once on_timeout clearTimeout
     resetSDK get_load alter_load enqueue log call_hook
     set_FB set_isReady set_isLoading set_error set_loadPromise set_window_FB
     set_window_fbAsyncInit set_document set_loads set_microtasks
     set_stage set_inject set_init set_settled set_timeout
     injected script_loaded waiting loaded timed_out init_params
     _FB _isReady _isLoading _error _loadPromise window_FB window_fbAsyncInit
     document loads microtasks effects
     self stage inject script init settled timeout
     fst snd is_pending negb] in H.

(** The world after one event, computed, with the rewriting [rw] wherever
    the computation is stuck. *)
Ltac compute_step rw :=
  match goal with
  | |- context [step ?e ?w] =>
      lazymatch w with
      | context [step _ _] => fail
      | _ => idtac
      end;
      let H := fresh "H" in
      let x := fresh "w" in
      remember (step e w) as x eqn:H;
      repeat (norm_in H;
              rewrite ?nth_error_last, ?alter_last, ?app_nil_l in H;
              rw H);
      subst x
  end.

Lemma run_nil w : run [] w = w.
Proof. reflexivity. Qed.

Section FirstLoad.

Variables (c : Composable) (w : World) (first : Element).

Hypothesis not_ready : _isReady w = false.
Hypothesis no_promise : _loadPromise w = None.
Hypothesis no_job : microtasks w = [].
Hypothesis no_tag : getElementById SDK_SCRIPT_ID (document w) = None.
Hypothesis a_script : find is_script (document w) = Some first.

Ltac open_world :=
  destruct w as [fb rdy ldg err lp wfb hook d ls mt efs];
  cbn [_isReady _loadPromise microtasks document window_FB
       window_fbAsyncInit] in *;
  subst rdy lp mt.

Lemma step_start : step (CallLoadSDK c) w = injected c w.
Proof.
  open_world.
  compute_step ltac:(fun H => rewrite ?no_tag, ?a_script in H).
  reflexivity.
Qed.

Lemma step_script_load :
  step (ScriptLoad (length (loads w))) (injected c w) = script_loaded c w.
Proof.
  open_world. compute_step ltac:(fun H => idtac). reflexivity.
Qed.

Lemma step_script_error :
  step (ScriptError (length (loads w))) (injected c w) =
  set_microtasks [length (loads w)]
    (alter_load (length (loads w))
       (set_inject (Rejected (ScriptLoadError (elem_src (sdk_script c)))))
       (injected c w)).
Proof.
  open_world. compute_step ltac:(fun H => idtac).
  unfold alter_load, injected. cbn. now rewrite alter_last.
Qed.

Lemma step_init_waits :
  appId c <> "" -> window_FB w = None ->
  step Microtask (script_loaded c w) = waiting c w.
Proof.
  intros A F. apply String.eqb_neq in A. open_world. subst wfb.
  compute_step ltac:(fun H => rewrite ?A in H).
  reflexivity.
Qed.

(** With no App ID the resumed body finds [_initSDK] rejecting, and its
    [catch] runs in the next job. *)
Lemma step_init_rejects :
  appId c = "" ->
  step Microtask (script_loaded c w) =
  set_microtasks [length (loads w)]
    (alter_load (length (loads w))
       (fun t => set_init (Rejected MissingAppId) (set_stage AwaitInit t))
       (script_loaded c w)).
Proof.
  intros A. assert (A' : (appId c =? "") = true) by now rewrite A.
  open_world.
  compute_step ltac:(fun H => rewrite ?A' in H).
  unfold alter_load, script_loaded. cbn. now rewrite alter_last.
Qed.

(** The timer expires on the waiting load, and its [catch] runs. *)
Lemma run_timeout :
  run [Timeout (length (loads w)); Microtask] (waiting c w) = timed_out c w.
Proof.
  rewrite !run_cons, run_nil. open_world.
  compute_step ltac:(fun H => idtac).
  compute_step ltac:(fun H => idtac). reflexivity.
Qed.

(** The SDK arrives on the waiting load and calls the hook. *)
Lemma run_hook :
  forall sdk k,
    not_ours (window_fbAsyncInit w) = true ->
    aborts k (window_fbAsyncInit w) = false ->
    fb_init sdk (init_params c) = None ->
    run [AssignFB sdk; CallHook k; Microtask] (waiting c w) = loaded c sdk w.
Proof.
  intros sdk k N B I. rewrite !run_cons, run_nil. open_world.
  unfold init_params in I. unfold aborts in B.
  destruct hook; try discriminate N; cbn [page_hooked andb] in B;
    compute_step ltac:(fun H => idtac);
    compute_step ltac:(fun H => rewrite ?B, ?I in H);
    compute_step ltac:(fun H => idtac);
    unfold loaded, init_params; cbn; rewrite <- app_assoc; reflexivity.
Qed.

End FirstLoad.

(** ** The claims on a first load *)

(** The promise of the load a world of the shape of [injected] holds last. *)
Lemma promise_last (w : World) (ls : list Load) (t : Load) :
  loads w = ls ++ [t] -> promise (length ls) w = promise_of t.
Proof.
  intros E. unfold promise, get_load. now rewrite E, nth_error_last.
Qed.

(** C10, amended.  [loadSDK()] of a composable without App ID, on an idle
    loader, in a document that has a script element and no SDK tag: the
    call puts the SDK tag into the document at once and its promise is
    pending; it is still pending when the load event of the tag has fired
    and the body has resumed; the job after that rejects it with the
    missing-App-ID error and leaves the loader failed with that error, the
    tag still in the document, and nothing else done ([FB.init] is not
    called).  The App ID is looked at in [_initSDK], after the injection. *)
Theorem missing_app_id_rejects_after_injection :
  forall (c : Composable) (w : World) (first : Element),
    idle w ->
    _loadPromise w = None ->
    microtasks w = [] ->
    getElementById SDK_SCRIPT_ID (document w) = None ->
    find is_script (document w) = Some first ->
    appId c = "" ->
    let n := length (loads w) in
    let w1 := step (CallLoadSDK c) w in
    let w2 := run [ScriptLoad n; Microtask] w1 in
    let w3 := step Microtask w2 in
    (getElementById SDK_SCRIPT_ID (document w1) = Some (sdk_script c) /\
     effects w1 = effects w ++ [InsertScript (sdk_script c)] /\
     snd (loadSDK c w) = LoadPromise n /\
     promise n w1 = Pending) /\
    promise n w2 = Pending /\
    (promise n w3 = Rejected MissingAppId /\
     failed w3 MissingAppId /\
     document w3 = document w1 /\
     effects w3 = effects w1).
Proof.
  intros c w first [_ R] P J T S A n w1 w2 w3. subst n.
  assert (E1 : w1 = injected c w) by (subst w1; eapply step_start; eassumption).
  assert (E2 : w2 = set_microtasks [length (loads w)]
                      (alter_load (length (loads w))
                         (fun t => set_init (Rejected MissingAppId) (set_stage AwaitInit t))
                         (script_loaded c w))).
  { subst w2. rewrite E1, !run_cons.
    erewrite step_script_load by eassumption.
    eapply step_init_rejects; eassumption. }
  assert (L2 : loads w2 = loads w ++ [mkLoad c AwaitInit Fulfilled (Some (sdk_script c))
                                        (Rejected MissingAppId) false NoTimer]).
  { rewrite E2. unfold alter_load, script_loaded. cbn. now rewrite alter_last. }
  assert (E3 : w3 = catch MissingAppId (length (loads w)) (set_microtasks [] w2)).
  { subst w3. rewrite E2. unfold step. cbn [microtasks set_microtasks].
    unfold resume, get_load, alter_load, script_loaded.
    cbn [loads set_microtasks set_loads].
    rewrite alter_last, nth_error_last. reflexivity. }
  clearbody w1 w2 w3.
  split; [|split].
  - rewrite E1. repeat split.
    + apply getElementById_inserted; [reflexivity|exact T|congruence].
    + destruct (loadSDK_starts c w R P) as (_ & H & _). exact H.
    + now rewrite (@promise_last (injected c w) (loads w) _ eq_refl).
  - now rewrite (@promise_last _ _ _ L2).
  - assert (L3 : loads w3 = loads w ++ [mkLoad c (Done (Rejected MissingAppId)) Fulfilled
                                          (Some (sdk_script c))
                                          (Rejected MissingAppId) false NoTimer]).
    { rewrite E3. unfold catch, alter_load. cbn. rewrite L2.
      now rewrite alter_last. }
    split; [now rewrite (@promise_last _ _ _ L3)|].
    rewrite E3, E2, E1. repeat split.
Qed.

Lemma missing_app_id_rejects_after_injection_witness :
  promise 0
    (step Microtask
       (run [ScriptLoad 0; Microtask]
          (step (CallLoadSDK anonymous_composable) (initial sample_document))))
  = Rejected MissingAppId.
Proof.
  exact (proj1 (proj2 (proj2
    (@missing_app_id_rejects_after_injection anonymous_composable
       (initial sample_document) (mkElement "script" "" "/src/main.ts")
       (conj eq_refl eq_refl) eq_refl eq_refl eq_refl eq_refl eq_refl)))).
Defined.

(** C10 as the spec has it fails when the SDK script does not load: the
    call of the composable without App ID then rejects with the script-load
    error, and [_initSDK], which would miss the App ID, is never reached. *)
Lemma missing_app_id_masked_by_script_error :
  promise 0 (run [CallLoadSDK anonymous_composable; ScriptError 0; Microtask]
               (initial sample_document))
  = Rejected (ScriptLoadError SDK_URL) /\
  _error (run [CallLoadSDK anonymous_composable; ScriptError 0; Microtask]
            (initial sample_document))
  = Some (ScriptLoadError SDK_URL) /\
  ScriptLoadError SDK_URL <> MissingAppId.
Proof. vm_compute. repeat split. discriminate. Qed.

(** C5.  A first load whose timer, set for 10 seconds, expires before the
    hook is called: the promise of the load is rejected with the timeout
    error, the loader is failed with that error, and the hook stays
    installed.  Whatever happens
    later, the promise stays rejected.  And when later the installed hook is
    called with the SDK in [window.FB] and an [FB.init] that returns, it
    still stores the handle, makes the loader ready and clears the error,
    the promise of the load being rejected as before.  The hook of the load
    first calls the hook it replaced: where the chain ends in a hook of the
    page, this one is taken to return, as a readiness hook that runs
    through does. *)
Theorem late_hook_after_timeout :
  forall (c : Composable) (w : World) (first : Element),
    idle w ->
    _loadPromise w = None ->
    microtasks w = [] ->
    window_FB w = None ->
    getElementById SDK_SCRIPT_ID (document w) = None ->
    find is_script (document w) = Some first ->
    appId c <> "" ->
    let n := length (loads w) in
    let wt := run [CallLoadSDK c; ScriptLoad n; Microtask; Timeout n; Microtask] w in
    INIT_TIMEOUT_MS = 10000%N /\
    (promise n wt = Rejected InitTimeout /\
     failed wt InitTimeout /\
     window_fbAsyncInit wt = LoaderHook n (window_fbAsyncInit w)) /\
    (forall es, promise n (run es wt) = Rejected InitTimeout) /\
    (forall es fb prev k,
        window_fbAsyncInit (run es wt) = LoaderHook n prev ->
        aborts k prev = false ->
        window_FB (run es wt) = Some fb ->
        fb_init fb (init_params c) = None ->
        let w' := step (CallHook k) (run es wt) in
        _FB w' = Some fb /\ _isReady w' = true /\ _isLoading w' = false /\
        _error w' = None /\ promise n w' = Rejected InitTimeout).
Proof.
  intros c w first [_ R] P J F T S A n wt. subst n.
  assert (E : wt = timed_out c w).
  { subst wt. rewrite !run_cons.
    erewrite step_start by eassumption.
    erewrite step_script_load by eassumption.
    erewrite step_init_waits by eassumption.
    change (run (Timeout (length (loads w)) :: Microtask :: []) (waiting c w))
      with (run [Timeout (length (loads w)); Microtask] (waiting c w)).
    eapply run_timeout; eassumption. }
  clearbody wt. subst wt.
  assert (Pr : promise (length (loads w)) (timed_out c w) = Rejected InitTimeout).
  { now rewrite (@promise_last (timed_out c w) (loads w) _ eq_refl). }
  assert (St : forall es, promise (length (loads w)) (run es (timed_out c w))
                          = Rejected InitTimeout).
  { intros es. apply promise_settled_for_good; [exact Pr|discriminate]. }
  split; [reflexivity|]. split; [|split].
  - split; [exact Pr|]. repeat split.
  - exact St.
  - intros es fb prev k Hh Hk Hf Hi w'.
    assert (G : get_load (length (loads w)) (timed_out c w)
                = Some (mkLoad c (Done (Rejected InitTimeout)) Fulfilled
                          (Some (sdk_script c)) (Rejected InitTimeout) true Fired)).
    { unfold get_load, timed_out. cbn [loads]. apply nth_error_last. }
    destruct (run_keeps es (timed_out c w) _ G) as (t' & G' & S' & _).
    cbn [self] in S'.
    assert (Hi' : fb_init fb (init_params (self t')) = None) by now rewrite S'.
    destruct (@call_hook_finalises k (length (loads w)) prev _ t' fb Hk G' Hf Hi')
      as (H1 & H2 & H3 & H4).
    cbv zeta in H1, H2, H3, H4.
    pose proof (St (es ++ [CallHook k])) as Q. rewrite run_app in Q.
    rewrite run_cons, run_nil in Q.
    subst w'. unfold step in *. rewrite Hh in *.
    repeat split; assumption.
Qed.

Lemma late_hook_after_timeout_witness :
  _isReady
    (step (CallHook plain_call)
       (run [AssignFB sample_FB]
          (run [CallLoadSDK sample_composable; ScriptLoad 0; Microtask;
                Timeout 0; Microtask] (initial sample_document))))
  = true /\
  promise 0
    (step (CallHook plain_call)
       (run [AssignFB sample_FB]
          (run [CallLoadSDK sample_composable; ScriptLoad 0; Microtask;
                Timeout 0; Microtask] (initial sample_document))))
  = Rejected InitTimeout.
Proof.
  assert (A : appId sample_composable <> "") by (vm_compute; discriminate).
  destruct (@late_hook_after_timeout sample_composable
              (initial sample_document) (mkElement "script" "" "/src/main.ts")
              (conj eq_refl eq_refl) eq_refl eq_refl eq_refl eq_refl eq_refl A)
    as (_ & _ & _ & H).
  assert (H1 : window_fbAsyncInit
                 (run [AssignFB sample_FB]
                    (run [CallLoadSDK sample_composable; ScriptLoad 0; Microtask;
                          Timeout 0; Microtask] (initial sample_document)))
               = LoaderHook 0 NoHook)
    by (vm_compute; reflexivity).
  assert (H2 : window_FB
                 (run [AssignFB sample_FB]
                    (run [CallLoadSDK sample_composable; ScriptLoad 0; Microtask;
                          Timeout 0; Microtask] (initial sample_document)))
               = Some sample_FB)
    by (vm_compute; reflexivity).
  destruct (H [AssignFB sample_FB] sample_FB NoHook plain_call H1 eq_refl H2 eq_refl)
    as (_ & Q1 & _ & _ & Q2).
  split; [exact Q1|exact Q2].
Defined.

(** ** Calls in the middle of a load *)

Lemma run_calls l cs w :
  in_flight l w -> run (map CallLoadSDK cs) w = w.
Proof.
  intros I. induction cs as [|c cs IH]; [reflexivity|].
  cbn [map]. rewrite run_cons. cbn [step].
  now rewrite (loadSDK_in_flight c I).
Qed.








End LoaderFacts.

(** * More properties of the loader *)

Module LoaderExtras.
Import Loader LoaderFacts.

(** ** Reachable worlds *)

Lemma run_invariant d es : invariant (run es (initial d)).
Proof.
  unfold run. generalize (invariant_initial d). generalize (initial d).
  induction es as [|e es IH]; intros w I; cbn; [exact I|].
  apply IH. now apply invariant_step.
Qed.

Lemma consistent_same w w' :
  same_singletons w w' -> consistent w -> consistent w'.
Proof.
  unfold same_singletons, consistent.
  intros (_ & -> & -> & -> & ->). auto.
Qed.

Lemma consistent_finalise w : consistent (_finalise w).
Proof. unfold consistent, _finalise. cbn. split; [discriminate|congruence]. Qed.

Lemma consistent_catch err l w : consistent (catch err l w).
Proof. unfold consistent, catch. cbn. split; [discriminate|auto]. Qed.

Lemma consistent_resetSDK w : consistent (resetSDK w).
Proof.
  unfold consistent, resetSDK. destruct (getElementById _ _); cbn;
    (split; [discriminate|congruence]).
Qed.

Lemma consistent_initSDK c l w : consistent w -> consistent (_initSDK c l w).
Proof.
  intros I. unfold _initSDK.
  destruct (_isReady w); [revert I; apply consistent_same; repeat split|].
  destruct (appId c =? ""); [revert I; apply consistent_same; repeat split|].
  destruct (window_FB w) as [fb|].
  - apply consistent_same with (w := _finalise w); [repeat split|].
    apply consistent_finalise.
  - revert I; apply consistent_same; repeat split.
Qed.

Lemma consistent_resume l w : consistent w -> consistent (resume l w).
Proof.
  intros I. unfold resume.
  destruct (get_load l w) as [t|]; [|exact I].
  destruct (stage t); [| |exact I].
  - destruct (inject t); [exact I| |apply consistent_catch].
    unfold await.
    match goal with
    | |- consistent (if ?b then ?x else _) =>
        assert (J : consistent x);
        [|destruct b; [exact J|revert J; apply consistent_same; repeat split]]
    end.
    apply consistent_initSDK. revert I. apply consistent_same. repeat split.
  - destruct (init t); [exact I| |apply consistent_catch].
    revert I. apply consistent_same. repeat split.
Qed.

Lemma consistent_call_hook k h w :
  consistent w -> consistent (fst (call_hook k h w)).
Proof.
  revert w. induction h as [| |l prev IH]; intros w I; cbn [call_hook fst];
    try exact I.
  specialize (IH w I). destruct (call_hook k prev w) as [w1 thrown].
  cbn [fst] in IH. destruct thrown; cbn [fst]; [exact IH|].
  destruct (get_load l w1) as [t|]; [|exact IH].
  destruct (window_FB w1) as [fb|].
  - destruct (fb_init fb _).
    + eapply consistent_same; [apply settle_once_singletons|].
      revert IH. apply consistent_same. repeat split.
    + eapply consistent_same; [apply settle_once_singletons|].
      apply consistent_finalise.
  - eapply consistent_same; [apply settle_once_singletons|exact IH].
Qed.

Lemma consistent_loadSDK c w : consistent w -> consistent (fst (loadSDK c w)).
Proof.
  intros I. unfold loadSDK.
  destruct (_isReady w) eqn:R; [exact I|].
  destruct (_loadPromise w); [exact I|].
  pose proof (injectScript_singletons c (set_error None (set_isLoading true w))) as S.
  destruct (_injectScript c (set_error None (set_isLoading true w))) as [[w1 p] s].
  cbn in S. destruct S as (S1 & S2 & S3 & S4 & S5). cbn in S1, S2, S3, S4, S5.
  unfold await. destruct (is_pending p);
    unfold consistent; cbn; rewrite S4;
    (split; [split; [reflexivity|discriminate]|intros H; now elim H]).
Qed.

Lemma consistent_step e w : consistent w -> consistent (step e w).
Proof.
  intros I. destruct e; cbn.
  - now apply consistent_loadSDK.
  - apply consistent_resetSDK.
  - destruct (microtasks w); [exact I|]. apply consistent_resume.
    revert I. apply consistent_same. repeat split.
  - destruct (get_load l w) as [t|]; [|exact I]. destruct (script t); [|exact I].
    eapply consistent_same; [apply settle_inject_singletons|exact I].
  - destruct (get_load l w) as [t|]; [|exact I]. destruct (script t); [|exact I].
    eapply consistent_same; [apply settle_inject_singletons|exact I].
  - eapply consistent_same; [apply on_timeout_singletons|exact I].
  - revert I. apply consistent_same. repeat split.
  - revert I. apply consistent_same. repeat split.
  - now apply consistent_call_hook.
Qed.

Lemma run_consistent d es : consistent (run es (initial d)).
Proof.
  assert (I : consistent (initial d)).
  { unfold consistent. cbn. split; [discriminate|intros H; now elim H]. }
  unfold run. revert I. generalize (initial d).
  induction es as [|e es IH]; intros w I; cbn; [exact I|].
  apply IH. now apply consistent_step.
Qed.

(** X1.  In every world the loader can reach, a loading loader shows no
    error and holds the promise of a load, and a loader that shows an error
    is neither ready nor loading and holds no promise. *)
Theorem flags_error_and_promise_agree :
  forall (d : Document) (es : list Event),
    let w := run es (initial d) in
    (_isLoading w = true -> _error w = None /\ _loadPromise w <> None) /\
    (forall err, _error w = Some err ->
                 _isReady w = false /\ _isLoading w = false /\
                 _loadPromise w = None).
Proof.
  intros d es w. destruct (run_consistent d es) as [A B]. fold w in A, B.
  split; [exact A|]. intros err E. apply B. rewrite E. discriminate.
Qed.

Lemma flags_error_and_promise_agree_witness :
  _isReady (run [CallLoadSDK anonymous_composable; ScriptLoad 0; Microtask;
                 Microtask] (initial sample_document)) = false /\
  _isLoading (run [CallLoadSDK anonymous_composable; ScriptLoad 0; Microtask;
                   Microtask] (initial sample_document)) = false /\
  _loadPromise (run [CallLoadSDK anonymous_composable; ScriptLoad 0; Microtask;
                     Microtask] (initial sample_document)) = None.
Proof.
  refine (proj2 (flags_error_and_promise_agree sample_document
                   [CallLoadSDK anonymous_composable; ScriptLoad 0; Microtask;
                    Microtask]) MissingAppId _).
  vm_compute. reflexivity.
Defined.

(** X2.  In every world the loader can reach, an error on display never
    blocks a retry: the next [loadSDK()] clears it, turns loading on and
    starts a new load, whose promise it returns. *)
Theorem error_never_blocks_a_retry :
  forall (d : Document) (es : list Event) (c : Composable) (err : Error),
    let w := run es (initial d) in
    _error w = Some err ->
    _error (fst (loadSDK c w)) = None /\
    _isLoading (fst (loadSDK c w)) = true /\
    snd (loadSDK c w) = LoadPromise (length (loads w)) /\
    length (loads (fst (loadSDK c w))) = S (length (loads w)).
Proof.
  intros d es c err w E.
  destruct (run_consistent d es) as [_ B]. fold w in B.
  destruct B as (R & _ & P); [rewrite E; discriminate|].
  destruct (loadSDK_starts c w R P) as (_ & S2 & S3 & _).
  split; [|split; [|split; assumption]].
  - unfold loadSDK. rewrite R, P. unfold _injectScript.
    destruct (getElementById _ _); [|destruct (find _ _)];
      cbn; unfold await; cbn; reflexivity.
  - unfold loadSDK. rewrite R, P. unfold _injectScript.
    destruct (getElementById _ _); [|destruct (find _ _)];
      cbn; unfold await; cbn; reflexivity.
Qed.

Lemma error_never_blocks_a_retry_witness :
  _isLoading
    (fst (loadSDK sample_composable
            (run [CallLoadSDK sample_composable; ScriptError 0; Microtask]
               (initial sample_document)))) = true.
Proof.
  refine (proj1 (proj2 (@error_never_blocks_a_retry sample_document
                          [CallLoadSDK sample_composable; ScriptError 0; Microtask]
                          sample_composable (ScriptLoadError SDK_URL) _))).
  vm_compute. reflexivity.
Defined.

(** ** The document *)

Lemma sdk_tags_absent d :
  getElementById SDK_SCRIPT_ID d = None -> sdk_tags d = 0.
Proof.
  unfold getElementById, sdk_tags.
  induction d as [|e d IH]; cbn; [reflexivity|].
  destruct (has_id SDK_SCRIPT_ID e); [discriminate|exact IH].
Qed.

Lemma sdk_tags_insert c d :
  sdk_tags (insertBeforeFirstScript (sdk_script c) d) <= S (sdk_tags d).
Proof.
  unfold sdk_tags. induction d as [|e d IH]; cbn; [lia|].
  destruct (is_script e); cbn.
  - destruct (has_id SDK_SCRIPT_ID e); cbn; lia.
  - destruct (has_id SDK_SCRIPT_ID e); cbn; lia.
Qed.

Lemma sdk_tags_remove d :
  sdk_tags (removeById SDK_SCRIPT_ID d) = pred (sdk_tags d).
Proof.
  unfold sdk_tags. induction d as [|e d IH]; cbn; [reflexivity|].
  destruct (has_id SDK_SCRIPT_ID e) eqn:E; cbn; [reflexivity|].
  now rewrite E.
Qed.

Lemma getElementById_none_iff d :
  sdk_tags d = 0 -> getElementById SDK_SCRIPT_ID d = None.
Proof.
  unfold getElementById, sdk_tags.
  induction d as [|e d IH]; cbn; [reflexivity|].
  destruct (has_id SDK_SCRIPT_ID e); cbn; [discriminate|exact IH].
Qed.

Ltac fields :=
  cbn [_FB _isReady _isLoading _error _loadPromise window_FB window_fbAsyncInit
       document loads microtasks effects
       set_FB set_isReady set_isLoading set_error set_loadPromise set_window_FB
       set_window_fbAsyncInit set_document set_loads set_microtasks log enqueue
       alter_load await is_pending fst snd].

(** The steps of the run-time system leave the document alone. *)
Lemma settle_init_document l r w : document (settle_init l r w) = document w.
Proof.
  unfold settle_init. destruct (get_load l w) as [t|]; [|reflexivity].
  now destruct (is_pending (init t)).
Qed.

Lemma settle_inject_document l r w : document (settle_inject l r w) = document w.
Proof.
  unfold settle_inject. destruct (get_load l w) as [t|]; [|reflexivity].
  now destruct (is_pending (inject t)).
Qed.

Lemma settle_once_document l r w : document (settle_once l r w) = document w.
Proof.
  unfold settle_once. destruct (get_load l w) as [t|]; [|reflexivity].
  destruct (settled t); [reflexivity|]. now rewrite settle_init_document.
Qed.

Lemma on_timeout_document l w : document (on_timeout l w) = document w.
Proof.
  unfold on_timeout. destruct (get_load l w) as [t|]; [|reflexivity].
  destruct (timeout t); try reflexivity.
  destruct (settled t); [reflexivity|]. now rewrite settle_init_document.
Qed.

Lemma initSDK_document c l w : document (_initSDK c l w) = document w.
Proof.
  unfold _initSDK. destruct (_isReady w); [reflexivity|].
  destruct (appId c =? ""); [reflexivity|]. now destruct (window_FB w).
Qed.

Lemma resume_document l w : document (resume l w) = document w.
Proof.
  unfold resume. destruct (get_load l w) as [t|]; [|reflexivity].
  destruct (stage t); [| |reflexivity].
  - destruct (inject t); try reflexivity.
    unfold await.
    match goal with
    | |- document (if ?b then ?x else _) = _ =>
        assert (J : document x = document w);
        [now rewrite initSDK_document|now destruct b]
    end.
  - now destruct (init t).
Qed.

Lemma call_hook_document k h w :
  document (fst (call_hook k h w)) = document w.
Proof.
  revert w. induction h as [| |l prev IH]; intros w; cbn [call_hook fst];
    try reflexivity.
  specialize (IH w). destruct (call_hook k prev w) as [w1 thrown].
  cbn [fst] in IH. destruct thrown; cbn [fst]; [exact IH|].
  destruct (get_load l w1) as [t|]; [|exact IH].
  destruct (window_FB w1) as [fb|]; [|now rewrite settle_once_document].
  destruct (fb_init fb _); now rewrite settle_once_document.
Qed.

Lemma step_sdk_tags e w :
  sdk_tags (document w) <= 1 -> sdk_tags (document (step e w)) <= 1.
Proof.
  intros H. destruct e; cbn [step].
  - unfold loadSDK. destruct (_isReady w); [exact H|].
    destruct (_loadPromise w); [exact H|].
    unfold _injectScript. fields.
    destruct (getElementById SDK_SCRIPT_ID (document w)) eqn:G.
    + fields. exact H.
    + destruct (find is_script (document w)); fields; [|exact H].
      pose proof (sdk_tags_insert c (document w)) as I.
      rewrite (sdk_tags_absent _ G) in I. exact I.
  - unfold resetSDK. destruct (getElementById _ _); fields; [|exact H].
    rewrite sdk_tags_remove. lia.
  - destruct (microtasks w); [exact H|]. now rewrite resume_document.
  - destruct (get_load l w) as [t|]; [|exact H].
    destruct (script t); [|exact H]. now rewrite settle_inject_document.
  - destruct (get_load l w) as [t|]; [|exact H].
    destruct (script t); [|exact H]. now rewrite settle_inject_document.
  - now rewrite on_timeout_document.
  - exact H.
  - exact H.
  - now rewrite call_hook_document.
Qed.

(** X3.  The loader never puts a second SDK script into the document: when
    the page starts with at most one element of the id of the SDK script,
    so it stays, whatever is called and whatever happens. *)
Theorem never_two_sdk_tags :
  forall (d : Document) (es : list Event),
    sdk_tags d <= 1 ->
    sdk_tags (document (run es (initial d))) <= 1.
Proof.
  intros d es H. unfold run.
  change d with (document (initial d)) in H. revert H. generalize (initial d).
  induction es as [|e es IH]; intros w H; cbn; [exact H|].
  apply IH. now apply step_sdk_tags.
Qed.

Lemma never_two_sdk_tags_witness :
  sdk_tags (document (run [CallLoadSDK sample_composable; ScriptError 0;
                           Microtask; CallLoadSDK sample_composable;
                           CallResetSDK; CallLoadSDK anonymous_composable]
                        (initial sample_document))) <= 1.
Proof.
  apply never_two_sdk_tags. vm_compute. lia.
Defined.

(** X4.  [resetSDK] from any world: no handle, not ready, not loading, no
    error, no promise, no [window.FB], no hook; the loads that are pending
    and the jobs that are queued stay as they are (nothing is cancelled).
    In a document with at most one SDK tag no SDK tag is left, and a second
    [resetSDK] changes nothing more. *)
Theorem resetSDK_clears_but_cancels_nothing :
  forall (w : World),
    let w' := resetSDK w in
    (_FB w' = None /\ _isReady w' = false /\ _isLoading w' = false /\
     _error w' = None /\ _loadPromise w' = None /\
     window_FB w' = None /\ window_fbAsyncInit w' = NoHook) /\
    (loads w' = loads w /\ microtasks w' = microtasks w) /\
    (sdk_tags (document w) <= 1 ->
     getElementById SDK_SCRIPT_ID (document w') = None /\
     resetSDK w' = w').
Proof.
  intros w w'. subst w'. split; [|split].
  - unfold resetSDK. destruct (getElementById _ _); repeat split.
  - unfold resetSDK. destruct (getElementById _ _); repeat split.
  - intros H.
    assert (G : getElementById SDK_SCRIPT_ID (document (resetSDK w)) = None).
    { apply getElementById_none_iff. unfold resetSDK.
      destruct (getElementById SDK_SCRIPT_ID (document w)) eqn:G; fields.
      - rewrite sdk_tags_remove. lia.
      - now apply sdk_tags_absent. }
    split; [exact G|].
    unfold resetSDK at 1. rewrite G.
    unfold resetSDK. destruct (getElementById _ _); reflexivity.
Qed.

Lemma resetSDK_clears_but_cancels_nothing_witness :
  getElementById SDK_SCRIPT_ID
    (document (resetSDK (run [CallLoadSDK sample_composable]
                           (initial sample_document)))) = None /\
  resetSDK (resetSDK (run [CallLoadSDK sample_composable]
                        (initial sample_document)))
  = resetSDK (run [CallLoadSDK sample_composable] (initial sample_document)).
Proof.
  refine (proj2 (proj2 (resetSDK_clears_but_cancels_nothing
                          (run [CallLoadSDK sample_composable]
                             (initial sample_document)))) _).
  vm_compute. lia.
Defined.

(** ** Loads that outlive a reset *)

Lemma get_load_alter_other l n f w :
  l <> n -> get_load n (alter_load l f w) = get_load n w.
Proof.
  intros H. unfold get_load, alter_load. fields. rewrite nth_error_alter.
  destruct (Nat.eqb_spec l n); [contradiction|reflexivity].
Qed.

(** X5.  [resetSDK] does not cancel a load.  When the body of an earlier
    load [a] resumes on the rejection of its script while [_loadPromise]
    holds the promise of a later load [b], its [catch] stores its error and
    drops that promise though load [b] is still pending: the loader is
    failed, and the next [loadSDK()] starts a third load beside [b]. *)
Theorem stale_failure_drops_the_promise_of_the_new_load :
  forall (c : Composable) (w : World) (a b : nat) (ta : Load) (err : Error)
         (rest : list nat),
    microtasks w = a :: rest ->
    get_load a w = Some ta ->
    stage ta = AwaitInject ->
    inject ta = Rejected err ->
    _loadPromise w = Some b ->
    a <> b ->
    promise b w = Pending ->
    let w' := step Microtask w in
    failed w' err /\
    promise a w' = Rejected err /\
    promise b w' = Pending /\
    snd (loadSDK c w') = LoadPromise (length (loads w)) /\
    length (loads (fst (loadSDK c w'))) = S (length (loads w)).
Proof.
  intros c w a b ta err rest M G S I P N B w'.
  assert (E : w' = catch err a (set_microtasks rest w)).
  { subst w'. unfold step. rewrite M. unfold resume.
    change (get_load a (set_microtasks rest w)) with (get_load a w).
    now rewrite G, S, I. }
  clearbody w'. subst w'.
  assert (F : failed (catch err a (set_microtasks rest w)) err) by (repeat split).
  split; [exact F|]. split; [|split].
  - unfold promise, catch, get_load. fields. rewrite nth_error_alter, Nat.eqb_refl.
    unfold get_load in G. now rewrite G.
  - unfold promise, catch. rewrite get_load_alter_other by exact N. exact B.
  - destruct F as ((_ & R) & _ & Q).
    destruct (loadSDK_starts c _ R Q) as (_ & S2 & S3 & _).
    unfold catch in S2, S3 |- *. revert S2 S3. fields.
    rewrite length_alter. auto.
Qed.

Lemma stale_failure_drops_the_promise_of_the_new_load_witness :
  promise 1
    (step Microtask
       (run [CallLoadSDK sample_composable; CallResetSDK;
             CallLoadSDK sample_composable; ScriptError 0]
          (initial sample_document))) = Pending /\
  _loadPromise
    (step Microtask
       (run [CallLoadSDK sample_composable; CallResetSDK;
             CallLoadSDK sample_composable; ScriptError 0]
          (initial sample_document))) = None.
Proof.
  destruct (@stale_failure_drops_the_promise_of_the_new_load sample_composable
              (run [CallLoadSDK sample_composable; CallResetSDK;
                    CallLoadSDK sample_composable; ScriptError 0]
                 (initial sample_document))
              0 1
              (mkLoad sample_composable AwaitInject
                 (Rejected (ScriptLoadError SDK_URL))
                 (Some (sdk_script sample_composable)) Pending false NoTimer)
              (ScriptLoadError SDK_URL) [])
    as ((_ & _ & Q) & _ & H & _);
    try (vm_compute; reflexivity).
  - discriminate.
  - split; [exact H|exact Q].
Defined.

(** ** A document without a script element *)

Lemma stuck_alter l f w n t :
  (forall t0, stuck t0 -> stuck (f t0)) ->
  get_load n w = Some t -> stuck t ->
  exists t', get_load n (alter_load l f w) = Some t' /\ stuck t'.
Proof.
  intros F G S. unfold get_load, alter_load in *. fields.
  rewrite nth_error_alter. destruct (Nat.eqb l n); rewrite G; cbn; eauto.
Qed.

(** An update of a load that is not stuck. *)
Lemma stuck_alter_free l f w n t t0 :
  get_load l w = Some t0 -> ~ stuck t0 ->
  get_load n w = Some t -> stuck t ->
  exists t', get_load n (alter_load l f w) = Some t' /\ stuck t'.
Proof.
  intros G0 N G S. destruct (Nat.eq_dec l n) as [->|D].
  - assert (t0 = t) by congruence. subst. contradiction.
  - rewrite get_load_alter_other by exact D. eauto.
Qed.

Lemma keeps_stuck_refl w : keeps_stuck w w.
Proof. intros n t G S. eauto. Qed.

Lemma keeps_stuck_trans w1 w2 w3 :
  keeps_stuck w1 w2 -> keeps_stuck w2 w3 -> keeps_stuck w1 w3.
Proof.
  intros A B n t G S. destruct (A n t G S) as (t2 & G2 & S2). eauto.
Qed.

Lemma keeps_stuck_same w w' : loads w' = loads w -> keeps_stuck w w'.
Proof. intros E n t G S. exists t. unfold get_load in *. now rewrite E. Qed.

Lemma keeps_stuck_alter l f w :
  (forall t0, stuck t0 -> stuck (f t0)) -> keeps_stuck w (alter_load l f w).
Proof. intros F n t G S. eapply stuck_alter; eassumption. Qed.

Lemma keeps_stuck_free l f w t0 :
  get_load l w = Some t0 -> ~ stuck t0 -> keeps_stuck w (alter_load l f w).
Proof. intros G0 N n t G S. eapply stuck_alter_free; eassumption. Qed.

(** The updates of [init], [settled] and the timer. *)
Ltac timer_update :=
  apply keeps_stuck_alter;
  let t := fresh "t" in
  intros t ?; unfold clearTimeout; try destruct (timeout t); assumption.

Lemma settle_init_stuck l r w : keeps_stuck w (settle_init l r w).
Proof.
  unfold settle_init. destruct (get_load l w) as [t|]; [|apply keeps_stuck_refl].
  destruct (is_pending (init t)); [|apply keeps_stuck_refl].
  eapply keeps_stuck_trans; [|apply keeps_stuck_same; reflexivity].
  timer_update.
Qed.

Lemma on_timeout_stuck l w : keeps_stuck w (on_timeout l w).
Proof.
  unfold on_timeout. destruct (get_load l w) as [t|]; [|apply keeps_stuck_refl].
  destruct (timeout t); try apply keeps_stuck_refl.
  destruct (settled t); [timer_update|].
  eapply keeps_stuck_trans; [|apply settle_init_stuck].
  eapply keeps_stuck_trans with (w2 := alter_load l (set_timeout Fired) w);
    timer_update.
Qed.

Lemma settle_once_stuck l r w : keeps_stuck w (settle_once l r w).
Proof.
  unfold settle_once. destruct (get_load l w) as [t|]; [|apply keeps_stuck_refl].
  destruct (settled t); [apply keeps_stuck_refl|].
  eapply keeps_stuck_trans; [|apply settle_init_stuck].
  eapply keeps_stuck_trans with (w2 := alter_load l (set_settled true) w);
    timer_update.
Qed.

Lemma initSDK_stuck c l w : keeps_stuck w (_initSDK c l w).
Proof.
  unfold _initSDK.
  destruct (_isReady w); [timer_update|].
  destruct (appId c =? ""); [timer_update|].
  destruct (window_FB w).
  - eapply keeps_stuck_trans with (w2 := _finalise w);
      [apply keeps_stuck_same; reflexivity|timer_update].
  - eapply keeps_stuck_trans with (w2 := alter_load l (set_settled false) w);
      [timer_update|].
    eapply keeps_stuck_trans with
      (w2 := alter_load l (set_timeout Armed) (alter_load l (set_settled false) w));
      [timer_update|apply keeps_stuck_same; reflexivity].
Qed.

Lemma resume_stuck l w : keeps_stuck w (resume l w).
Proof.
  unfold resume. destruct (get_load l w) as [t|] eqn:G; [|apply keeps_stuck_refl].
  destruct (stage t) eqn:S; [| |apply keeps_stuck_refl].
  - destruct (inject t) eqn:I; [apply keeps_stuck_refl| |].
    + unfold await.
      match goal with
      | |- keeps_stuck _ (if ?b then ?x else _) =>
          assert (J : keeps_stuck w x);
          [|destruct b; [exact J|eapply keeps_stuck_trans;
                                 [exact J|apply keeps_stuck_same; reflexivity]]]
      end.
      eapply keeps_stuck_trans; [|apply initSDK_stuck].
      eapply keeps_stuck_free; [exact G|].
      intros (_ & P & _). congruence.
    + unfold catch.
      eapply keeps_stuck_trans;
        [|eapply keeps_stuck_free with (t0 := t);
          [exact G|intros (_ & P & _); congruence]].
      apply keeps_stuck_same; reflexivity.
  - assert (N : ~ stuck t) by (intros (P & _); congruence).
    destruct (init t); [apply keeps_stuck_refl| |].
    + eapply keeps_stuck_free; eassumption.
    + unfold catch.
      eapply keeps_stuck_trans;
        [|eapply keeps_stuck_free with (t0 := t); [exact G|exact N]].
      apply keeps_stuck_same; reflexivity.
Qed.

Lemma call_hook_stuck k h w : keeps_stuck w (fst (call_hook k h w)).
Proof.
  revert w. induction h as [| |l prev IH]; intros w; cbn [call_hook fst];
    try apply keeps_stuck_refl.
  specialize (IH w). destruct (call_hook k prev w) as [w1 thrown].
  cbn [fst] in IH. destruct thrown; cbn [fst]; [exact IH|].
  eapply keeps_stuck_trans; [exact IH|].
  destruct (get_load l w1) as [t|]; [|apply keeps_stuck_refl].
  destruct (window_FB w1) as [fb|]; [|apply settle_once_stuck].
  destruct (fb_init fb _);
    (eapply keeps_stuck_trans; [|apply settle_once_stuck]);
    apply keeps_stuck_same; reflexivity.
Qed.

Lemma step_stuck e w : keeps_stuck w (step e w).
Proof.
  destruct e; cbn [step].
  - unfold loadSDK. destruct (_isReady w); [apply keeps_stuck_refl|].
    destruct (_loadPromise w); [apply keeps_stuck_refl|].
    unfold _injectScript.
    destruct (getElementById _ _); [|destruct (find _ _)]; fields;
      intros n t G S; exists t; (split; [|exact S]);
      unfold get_load in *; fields;
      (rewrite nth_error_app1; [exact G|apply nth_error_Some; congruence]).
  - unfold resetSDK. destruct (getElementById _ _); apply keeps_stuck_same; reflexivity.
  - destruct (microtasks w); [apply keeps_stuck_refl|].
    eapply keeps_stuck_trans; [|apply resume_stuck]. apply keeps_stuck_same; reflexivity.
  - destruct (get_load l w) as [t|] eqn:G; [|apply keeps_stuck_refl].
    destruct (script t) eqn:S; [|apply keeps_stuck_refl].
    unfold settle_inject. rewrite G.
    destruct (is_pending (inject t)); [|apply keeps_stuck_refl].
    eapply keeps_stuck_trans; [|apply keeps_stuck_same; reflexivity].
    eapply keeps_stuck_free; [exact G|]. intros (_ & _ & P). congruence.
  - destruct (get_load l w) as [t|] eqn:G; [|apply keeps_stuck_refl].
    destruct (script t) eqn:S; [|apply keeps_stuck_refl].
    unfold settle_inject. rewrite G.
    destruct (is_pending (inject t)); [|apply keeps_stuck_refl].
    eapply keeps_stuck_trans; [|apply keeps_stuck_same; reflexivity].
    eapply keeps_stuck_free; [exact G|]. intros (_ & _ & P). congruence.
  - apply on_timeout_stuck.
  - apply keeps_stuck_same; reflexivity.
  - apply keeps_stuck_same; reflexivity.
  - apply call_hook_stuck.
Qed.

Lemma run_stuck es w : keeps_stuck w (run es w).
Proof.
  revert w. induction es as [|e es IH]; intros w; [apply keeps_stuck_refl|].
  rewrite run_cons. eapply keeps_stuck_trans; [apply step_stuck|apply IH].
Qed.

(** X6.  In a document without any script element [_injectScript] inserts
    nothing ([firstScript] is [undefined]): the first [loadSDK()] leaves the
    document as it was and turns loading on, and the promise it returns is
    pending for ever, whatever is called and whatever happens later: the
    body never gets past [await _injectScript()], so that [_initSDK] and
    its timer are never reached. *)
Theorem load_hangs_without_a_script_element :
  forall (c : Composable) (w : World),
    _isReady w = false ->
    _loadPromise w = None ->
    getElementById SDK_SCRIPT_ID (document w) = None ->
    find is_script (document w) = None ->
    let n := length (loads w) in
    let w1 := step (CallLoadSDK c) w in
    document w1 = document w /\
    effects w1 = effects w /\
    _isLoading w1 = true /\
    snd (loadSDK c w) = LoadPromise n /\
    (forall es, promise n (run es w1) = Pending) /\
    (forall es t, get_load n (run es w1) = Some t -> stuck t).
Proof.
  intros c w R P T S n w1.
  assert (E : w1 = set_loadPromise (Some n)
                     (set_loads (loads w ++ [mkLoad c AwaitInject Pending None
                                               Pending false NoTimer])
                        (set_error None (set_isLoading true w)))).
  { subst w1 n. cbn [step]. unfold loadSDK, _injectScript. rewrite R, P.
    fields. rewrite T, S. reflexivity. }
  clearbody w1. subst w1.
  assert (G : get_load n
                (set_loadPromise (Some n)
                   (set_loads (loads w ++ [mkLoad c AwaitInject Pending None
                                             Pending false NoTimer])
                      (set_error None (set_isLoading true w))))
              = Some (mkLoad c AwaitInject Pending None Pending false NoTimer)).
  { unfold get_load. fields. subst n. apply nth_error_last. }
  assert (K : stuck (mkLoad c AwaitInject Pending None Pending false NoTimer))
    by (repeat split).
  split; [reflexivity|]. split; [reflexivity|]. split; [reflexivity|].
  split; [|split].
  - destruct (loadSDK_starts c w R P) as (_ & H & _). exact H.
  - intros es.
    match type of G with
    | get_load _ ?x = _ =>
        destruct (@run_stuck es x n _ G K) as (t' & G' & (St & _))
    end.
    unfold promise, promise_of. now rewrite G', St.
  - intros es t Gt.
    match type of G with
    | get_load _ ?x = _ =>
        destruct (@run_stuck es x n _ G K) as (t' & G' & K')
    end.
    congruence.
Qed.

Lemma load_hangs_without_a_script_element_witness :
  promise 0
    (run [ScriptLoad 0; Microtask; Timeout 0; CallHook plain_call; Microtask]
       (step (CallLoadSDK sample_composable) (initial scriptless_document)))
  = Pending.
Proof.
  refine (proj1 (proj2 (proj2 (proj2 (proj2
    (@load_hangs_without_a_script_element sample_composable
       (initial scriptless_document) eq_refl eq_refl eq_refl eq_refl))))) _).
Defined.

(** ** Paths of a load the claims leave out *)

(** X7.  The SDK is there already (hot reload): with a tag of the id of the
    SDK script in the document and [window.FB] set, a [loadSDK()] of a
    composable with an App ID inserts nothing, installs no hook and arms no
    timer.  The first job takes [window.FB] as the handle and makes the
    loader ready while the promise of the load is still pending; the second
    job fulfils it.  [FB.init] is never called on this path. *)
Theorem hot_reload_takes_the_sdk_without_init :
  forall (c : Composable) (w : World) (tag : Element) (sdk : FacebookStatic),
    _isReady w = false ->
    _loadPromise w = None ->
    microtasks w = [] ->
    getElementById SDK_SCRIPT_ID (document w) = Some tag ->
    window_FB w = Some sdk ->
    appId c <> "" ->
    let n := length (loads w) in
    let w1 := step (CallLoadSDK c) w in
    let w2 := step Microtask w1 in
    let w3 := step Microtask w2 in
    (_isLoading w1 = true /\ promise n w1 = Pending) /\
    (_isReady w2 = true /\ _FB w2 = Some sdk /\ promise n w2 = Pending) /\
    (_FB w3 = Some sdk /\ _isReady w3 = true /\ _isLoading w3 = false /\
     _error w3 = None /\ promise n w3 = Fulfilled) /\
    document w3 = document w /\
    effects w3 = effects w /\
    window_fbAsyncInit w3 = window_fbAsyncInit w /\
    get_load n w3 = Some (mkLoad c (Done Fulfilled) Fulfilled None Fulfilled
                            false NoTimer).
Proof.
  intros c w tag sdk R P J T F A n w1 w2 w3.
  apply String.eqb_neq in A.
  destruct w as [fb rdy ldg err lp wfb hook d ls mt efs].
  cbn [_isReady _loadPromise microtasks document window_FB] in R, P, J, T, F.
  subst rdy lp mt wfb.
  cbn [loads length document effects window_fbAsyncInit] in *.
  assert (E1 : w1 = mkWorld fb false true None (Some (length ls)) (Some sdk) hook d
                      (ls ++ [mkLoad c AwaitInject Fulfilled None Pending false NoTimer])
                      [length ls] efs).
  { subst w1. compute_step ltac:(fun H => rewrite ?T in H). reflexivity. }
  assert (E2 : w2 = mkWorld (Some sdk) true false None (Some (length ls)) (Some sdk) hook d
                      (ls ++ [mkLoad c AwaitInit Fulfilled None Fulfilled false NoTimer])
                      [length ls] efs).
  { subst w2. rewrite E1. compute_step ltac:(fun H => rewrite ?A in H). reflexivity. }
  assert (E3 : w3 = mkWorld (Some sdk) true false None (Some (length ls)) (Some sdk) hook d
                      (ls ++ [mkLoad c (Done Fulfilled) Fulfilled None Fulfilled false NoTimer])
                      [] efs).
  { subst w3. rewrite E2. compute_step ltac:(fun H => idtac). reflexivity. }
  clearbody w1 w2 w3. subst w1 w2 w3 n.
  unfold promise, get_load. cbn [loads _isLoading _isReady _FB _error document
                                 effects window_fbAsyncInit].
  rewrite !nth_error_last. repeat split.
Qed.

Lemma hot_reload_takes_the_sdk_without_init_witness :
  effects (step Microtask (step Microtask
             (step (CallLoadSDK sample_composable)
                (step (AssignFB sample_FB)
                   (initial [mkElement "script" SDK_SCRIPT_ID SDK_URL])))))
  = effects (step (AssignFB sample_FB)
               (initial [mkElement "script" SDK_SCRIPT_ID SDK_URL])).
Proof.
  refine (proj1 (proj2 (proj2 (proj2 (proj2
    (@hot_reload_takes_the_sdk_without_init sample_composable
       (step (AssignFB sample_FB)
          (initial [mkElement "script" SDK_SCRIPT_ID SDK_URL]))
       (mkElement "script" SDK_SCRIPT_ID SDK_URL) sample_FB
       eq_refl eq_refl eq_refl eq_refl eq_refl _)))))).
  discriminate.
Defined.

(** X8.  A hook that cannot initialise.  On a first load that waits for
    its hook, on a page whose own hook, if it has one, returns, a call of
    the hook with an SDK whose [FB.init] throws [m] rejects the load with
    the message of [m] behind the prefix of the loader: the loader is
    failed with that error, the handle is not stored ([_finalise] is
    skipped), and the timer is cleared, so that its expiry changes nothing.
    A call of the hook while [window.FB] is still [undefined] does the same
    with the message of the [TypeError] of the engine, whatever its
    wording, and [FB.init] is not called.  When the hook of the page
    throws, the call changes nothing at all: the load goes on waiting. *)
Theorem hook_failure_rejects_the_load :
  forall (c : Composable) (w : World) (first : Element),
    idle w ->
    _loadPromise w = None ->
    microtasks w = [] ->
    window_FB w = None ->
    not_ours (window_fbAsyncInit w) = true ->
    getElementById SDK_SCRIPT_ID (document w) = None ->
    find is_script (document w) = Some first ->
    appId c <> "" ->
    let n := length (loads w) in
    let ww := run [CallLoadSDK c; ScriptLoad n; Microtask] w in
    (forall (sdk : FacebookStatic) (m : string) (k : HookCall),
        aborts k (window_fbAsyncInit w) = false ->
        fb_init sdk (init_params c) = Some m ->
        let w' := run [AssignFB sdk; CallHook k; Microtask] ww in
        failed w' (InitException m) /\
        promise n w' = Rejected (InitException m) /\
        _FB w' = _FB w /\
        effects w' = effects w ++ [InsertScript (sdk_script c); FBInit (init_params c)] /\
        step (Timeout n) w' = w') /\
    (forall (k : HookCall),
        aborts k (window_fbAsyncInit w) = false ->
        let w' := run [CallHook k; Microtask] ww in
        failed w' (InitException (type_error k)) /\
        promise n w' = Rejected (InitException (type_error k)) /\
        _FB w' = _FB w /\
        effects w' = effects w ++ [InsertScript (sdk_script c)] /\
        step (Timeout n) w' = w') /\
    (forall (k : HookCall),
        aborts k (window_fbAsyncInit w) = true ->
        step (CallHook k) ww = ww /\ promise n ww = Pending).
Proof.
  intros c w first [_ R] P J F N T S A n ww.
  assert (E : ww = waiting c w).
  { subst ww n. rewrite !run_cons, run_nil.
    erewrite step_start by eassumption.
    erewrite step_script_load by eassumption.
    eapply step_init_waits; eassumption. }
  clearbody ww. subst ww n.
  destruct w as [fb rdy ldg err lp wfb hook d ls mt efs].
  cbn [_isReady _loadPromise microtasks document window_FB window_fbAsyncInit]
    in R, P, J, F, N, T, S.
  subst rdy lp mt wfb.
  split; [|split].
  - intros sdk m k B I w'. cbn [window_fbAsyncInit] in B. unfold aborts in B.
    assert (E : w' = mkWorld fb false false (Some (InitException m)) None (Some sdk)
                       (LoaderHook (length ls) hook)
                       (insertBeforeFirstScript (sdk_script c) d)
                       (ls ++ [mkLoad c (Done (Rejected (InitException m))) Fulfilled
                                 (Some (sdk_script c)) (Rejected (InitException m))
                                 true Cleared])
                       []
                       (efs ++ [InsertScript (sdk_script c); FBInit (init_params c)])).
    { subst w'. rewrite !run_cons, run_nil. unfold init_params in I.
      destruct hook; try discriminate N; cbn [page_hooked andb] in B;
        compute_step ltac:(fun H => idtac);
        compute_step ltac:(fun H => rewrite ?B, ?I in H);
        compute_step ltac:(fun H => idtac);
        unfold init_params; cbn; rewrite <- app_assoc; reflexivity. }
    clearbody w'. subst w'.
    split; [repeat split|]. split.
    { unfold promise, get_load. cbn [loads]. now rewrite nth_error_last. }
    split; [reflexivity|]. split; [reflexivity|].
    compute_step ltac:(fun H => idtac). reflexivity.
  - intros k B w'. cbn [window_fbAsyncInit] in B. unfold aborts in B.
    assert (E : w' = mkWorld fb false false (Some (InitException (type_error k)))
                       None None
                       (LoaderHook (length ls) hook)
                       (insertBeforeFirstScript (sdk_script c) d)
                       (ls ++ [mkLoad c (Done (Rejected (InitException (type_error k))))
                                 Fulfilled (Some (sdk_script c))
                                 (Rejected (InitException (type_error k))) true Cleared])
                       []
                       (efs ++ [InsertScript (sdk_script c)])).
    { subst w'. rewrite !run_cons, run_nil.
      destruct hook; try discriminate N; cbn [page_hooked andb] in B;
        compute_step ltac:(fun H => rewrite ?B in H);
        compute_step ltac:(fun H => idtac);
        reflexivity. }
    clearbody w'. subst w'.
    split; [repeat split|]. split.
    { unfold promise, get_load. cbn [loads]. now rewrite nth_error_last. }
    split; [reflexivity|]. split; [reflexivity|].
    compute_step ltac:(fun H => idtac). reflexivity.
  - intros k B. split.
    + cbn [step]. unfold waiting at 1. cbn [window_fbAsyncInit].
      rewrite call_hook_aborts; [reflexivity|exact B].
    + unfold promise, get_load, waiting. cbn [loads]. now rewrite nth_error_last.
Qed.

Lemma hook_failure_rejects_the_load_witness :
  _error (run [AssignFB (broken_FB "boom"); CallHook plain_call; Microtask]
            (run [CallLoadSDK sample_composable; ScriptLoad 0; Microtask]
               (initial sample_document)))
  = Some (InitException "boom").
Proof.
  refine (proj1 (proj2 (proj1 (proj1
    (@hook_failure_rejects_the_load sample_composable (initial sample_document)
       (mkElement "script" "" "/src/main.ts")
       (conj eq_refl eq_refl) eq_refl eq_refl eq_refl eq_refl eq_refl eq_refl _)
    (broken_FB "boom") "boom" plain_call eq_refl eq_refl)))).
  discriminate.
Defined.

(** X9.  The script does not load.  A first load whose script fires its
    error event fails with the message that names the URL of the script;
    [_initSDK] is not reached (the hook is as it was), and the tag stays in
    the document.  The next [loadSDK()], of whatever composable, finds that
    tag: it inserts nothing, its [_injectScript] promise is resolved at
    once, and its load has no script element of its own, so that a load or
    error event for it changes nothing. *)
Theorem script_error_fails_and_leaves_the_tag :
  forall (c c' : Composable) (w : World) (first : Element),
    _isReady w = false ->
    _loadPromise w = None ->
    microtasks w = [] ->
    getElementById SDK_SCRIPT_ID (document w) = None ->
    find is_script (document w) = Some first ->
    let n := length (loads w) in
    let err := ScriptLoadError (if debug c then SDK_DEBUG_URL else SDK_URL) in
    let w1 := run [CallLoadSDK c; ScriptError n; Microtask] w in
    let w2 := step (CallLoadSDK c') w1 in
    (failed w1 err /\
     promise n w1 = Rejected err /\
     getElementById SDK_SCRIPT_ID (document w1) = Some (sdk_script c) /\
     window_fbAsyncInit w1 = window_fbAsyncInit w /\
     effects w1 = effects w ++ [InsertScript (sdk_script c)]) /\
    (document w2 = document w1 /\
     effects w2 = effects w1 /\
     get_load (S n) w2
     = Some (mkLoad c' AwaitInject Fulfilled None Pending false NoTimer) /\
     microtasks w2 = [S n] /\
     step (ScriptLoad (S n)) w2 = w2 /\
     step (ScriptError (S n)) w2 = w2).
Proof.
  intros c c' w first R P J T Sc n err w1 w2.
  assert (G : getElementById SDK_SCRIPT_ID
                (insertBeforeFirstScript (sdk_script c) (document w))
              = Some (sdk_script c)).
  { apply getElementById_inserted; [reflexivity|exact T|congruence]. }
  destruct w as [fb rdy ldg err0 lp wfb hook d ls mt efs].
  cbn [_isReady _loadPromise microtasks document] in R, P, J, T, Sc, G.
  subst rdy lp mt.
  assert (E1 : w1 = mkWorld fb false false (Some err) None wfb hook
                      (insertBeforeFirstScript (sdk_script c) d)
                      (ls ++ [mkLoad c (Done (Rejected err)) (Rejected err)
                                (Some (sdk_script c)) Pending false NoTimer])
                      []
                      (efs ++ [InsertScript (sdk_script c)])).
  { subst w1 n. rewrite !run_cons, run_nil.
    compute_step ltac:(fun H => rewrite ?T, ?Sc in H).
    compute_step ltac:(fun H => idtac).
    compute_step ltac:(fun H => idtac).
    reflexivity. }
  assert (E2 : w2 = mkWorld fb false true None (Some (S (length ls))) wfb hook
                      (insertBeforeFirstScript (sdk_script c) d)
                      ((ls ++ [mkLoad c (Done (Rejected err)) (Rejected err)
                                 (Some (sdk_script c)) Pending false NoTimer])
                       ++ [mkLoad c' AwaitInject Fulfilled None Pending false NoTimer])
                      [S (length ls)]
                      (efs ++ [InsertScript (sdk_script c)])).
  { subst w2. rewrite E1.
    compute_step ltac:(fun H => rewrite ?G, ?length_app in H; cbn [length] in H;
                                rewrite ?Nat.add_1_r in H).
    reflexivity. }
  assert (L : S (length ls)
              = length (ls ++ [mkLoad c (Done (Rejected err)) (Rejected err)
                                 (Some (sdk_script c)) Pending false NoTimer])).
  { rewrite length_app. cbn. lia. }
  clearbody w1 w2. subst w1 w2 n.
  cbn [loads length document effects window_fbAsyncInit microtasks].
  split; [split; [repeat split|]|].
  - split; [unfold promise, get_load; cbn [loads]; now rewrite nth_error_last|].
    split; [exact G|]. split; reflexivity.
  - split; [reflexivity|]. split; [reflexivity|].
    assert (N : nth_error
                  ((ls ++ [mkLoad c (Done (Rejected err)) (Rejected err)
                             (Some (sdk_script c)) Pending false NoTimer])
                   ++ [mkLoad c' AwaitInject Fulfilled None Pending false NoTimer])
                  (S (length ls))
                = Some (mkLoad c' AwaitInject Fulfilled None Pending false NoTimer)).
    { rewrite L. apply nth_error_last. }
    split; [exact N|]. split; [reflexivity|].
    unfold step, get_load. cbn [loads]. rewrite N. split; reflexivity.
Qed.

Lemma script_error_fails_and_leaves_the_tag_witness :
  effects (step (CallLoadSDK anonymous_composable)
             (run [CallLoadSDK sample_composable; ScriptError 0; Microtask]
                (initial sample_document)))
  = effects (run [CallLoadSDK sample_composable; ScriptError 0; Microtask]
               (initial sample_document)).
Proof.
  exact (proj1 (proj2 (proj2
    (@script_error_fails_and_leaves_the_tag sample_composable anonymous_composable
       (initial sample_document) (mkElement "script" "" "/src/main.ts")
       eq_refl eq_refl eq_refl eq_refl eq_refl)))).
Defined.

(** ** The chain of hooks *)

Lemma init_calls_app xs ys :
  init_calls (xs ++ ys) = init_calls xs + init_calls ys.
Proof. unfold init_calls. now rewrite filter_app, length_app. Qed.

Lemma settle_init_effects l r w : effects (settle_init l r w) = effects w.
Proof.
  unfold settle_init. destruct (get_load l w) as [t|]; [|reflexivity].
  now destruct (is_pending (init t)).
Qed.

Lemma settle_once_effects l r w : effects (settle_once l r w) = effects w.
Proof.
  unfold settle_once. destruct (get_load l w) as [t|]; [|reflexivity].
  destruct (settled t); [reflexivity|]. now rewrite settle_init_effects.
Qed.

(** A call of a hook runs [FB.init] once for every load of its chain, for
    loads that are settled as for the others. *)
Lemma call_hook_init_calls k h w sdk :
  aborts k h = false ->
  window_FB w = Some sdk ->
  (forall l, In l (hooked h) -> get_load l w <> None) ->
  init_calls (effects (fst (call_hook k h w)))
  = init_calls (effects w) + length (hooked h).
Proof.
  intros N F. induction h as [| |l prev IH]; intros E;
    cbn [hooked length call_hook fst]; try lia.
  assert (N' : aborts k prev = false) by exact N.
  destruct (call_hook_keeps k prev w) as [K F1].
  assert (IH' : init_calls (effects (fst (call_hook k prev w)))
                = init_calls (effects w) + length (hooked prev)).
  { apply IH; [exact N'|]. intros l' I. apply E. now right. }
  pose proof (call_hook_thrown k prev w) as T. rewrite N' in T.
  destruct (call_hook k prev w) as [w1 thrown]. cbn [fst snd] in K, F1, IH', T.
  subst thrown. cbn [fst].
  destruct (get_load l w) as [t|] eqn:G; [|now elim (E l (or_introl eq_refl))].
  destruct (K l t G) as (t1 & G1 & _).
  rewrite G1, F1, F.
  destruct (fb_init sdk _); rewrite settle_once_effects; unfold _finalise; fields;
    rewrite init_calls_app, IH'; cbn; lia.
Qed.

Lemma settle_init_hook l r w :
  window_fbAsyncInit (settle_init l r w) = window_fbAsyncInit w.
Proof.
  unfold settle_init. destruct (get_load l w) as [t|]; [|reflexivity].
  now destruct (is_pending (init t)).
Qed.

Lemma settle_inject_hook l r w :
  window_fbAsyncInit (settle_inject l r w) = window_fbAsyncInit w.
Proof.
  unfold settle_inject. destruct (get_load l w) as [t|]; [|reflexivity].
  now destruct (is_pending (inject t)).
Qed.

Lemma settle_once_hook l r w :
  window_fbAsyncInit (settle_once l r w) = window_fbAsyncInit w.
Proof.
  unfold settle_once. destruct (get_load l w) as [t|]; [|reflexivity].
  destruct (settled t); [reflexivity|]. now rewrite settle_init_hook.
Qed.

Lemma on_timeout_hook l w :
  window_fbAsyncInit (on_timeout l w) = window_fbAsyncInit w.
Proof.
  unfold on_timeout. destruct (get_load l w) as [t|]; [|reflexivity].
  destruct (timeout t); try reflexivity.
  destruct (settled t); [reflexivity|]. now rewrite settle_init_hook.
Qed.

Lemma call_hook_hook k h w :
  window_fbAsyncInit (fst (call_hook k h w)) = window_fbAsyncInit w.
Proof.
  revert w. induction h as [| |l prev IH]; intros w; cbn [call_hook fst];
    try reflexivity.
  specialize (IH w). destruct (call_hook k prev w) as [w1 thrown].
  cbn [fst] in IH. destruct thrown; cbn [fst]; [exact IH|].
  destruct (get_load l w1) as [t|]; [|exact IH].
  destruct (window_FB w1) as [fb|]; [|now rewrite settle_once_hook].
  destruct (fb_init fb _); now rewrite settle_once_hook.
Qed.

Lemma loadSDK_hook c w :
  window_fbAsyncInit (fst (loadSDK c w)) = window_fbAsyncInit w.
Proof.
  unfold loadSDK. destruct (_isReady w); [reflexivity|].
  destruct (_loadPromise w); [reflexivity|].
  unfold _injectScript. fields.
  destruct (getElementById SDK_SCRIPT_ID (document w)); [reflexivity|].
  destruct (find is_script (document w)); reflexivity.
Qed.

(** Only [_initSDK] of the resumed load lengthens the chain, by that load. *)
Lemma resume_hooked l w :
  hooked (window_fbAsyncInit (resume l w)) = hooked (window_fbAsyncInit w) \/
  (hooked (window_fbAsyncInit (resume l w)) = l :: hooked (window_fbAsyncInit w) /\
   get_load l w <> None).
Proof.
  unfold resume. destruct (get_load l w) as [t|] eqn:G; [|now left].
  destruct (stage t); [| |now left].
  - destruct (inject t); [now left| |now left].
    unfold await.
    match goal with
    | |- context [if ?b then ?x else enqueue l ?x] =>
        assert (J : hooked (window_fbAsyncInit x) = hooked (window_fbAsyncInit w) \/
                    hooked (window_fbAsyncInit x) = l :: hooked (window_fbAsyncInit w));
        [|destruct b; fields;
          (destruct J as [J|J]; [left; exact J|right; split; [exact J|congruence]])]
    end.
    unfold _initSDK. fields.
    destruct (_isReady w); [now left|].
    destruct (appId (self t) =? ""); [now left|].
    destruct (window_FB w); [now left|]. now right.
  - destruct (init t); now left.
Qed.

Lemma hook_wf_frame w w' :
  keeps_loads w w' ->
  hooked (window_fbAsyncInit w') = hooked (window_fbAsyncInit w) ->
  hook_wf w -> hook_wf w'.
Proof.
  intros K E H l I. rewrite E in I.
  destruct (get_load l w) as [t|] eqn:G; [|now elim (H l I)].
  destruct (K l t G) as (t' & G' & _). congruence.
Qed.

Lemma hook_wf_step e w : hook_wf w -> hook_wf (step e w).
Proof.
  intros H. pose proof (step_keeps e w) as K. revert K.
  destruct e; cbn [step]; intros K.
  - revert H. apply hook_wf_frame; [exact K|now rewrite loadSDK_hook].
  - intros l. unfold resetSDK. now destruct (getElementById _ _).
  - destruct (microtasks w) as [|l rest]; [exact H|].
    destruct (resume_hooked l (set_microtasks rest w)) as [E|[E G]].
    + revert H. apply hook_wf_frame; [exact K|exact E].
    + intros l' I. rewrite E in I. destruct I as [<-|I].
      * destruct (get_load l (set_microtasks rest w)) as [t|] eqn:G1; [|now elim G].
        destruct (resume_keeps l (set_microtasks rest w) l G1) as (t' & G' & _).
        congruence.
      * destruct (get_load l' w) as [t|] eqn:G1; [|now elim (H l' I)].
        destruct (K l' t G1) as (t' & G' & _). congruence.
  - destruct (get_load l w) as [t|]; [|exact H]. destruct (script t); [|exact H].
    revert H. apply hook_wf_frame; [exact K|now rewrite settle_inject_hook].
  - destruct (get_load l w) as [t|]; [|exact H]. destruct (script t); [|exact H].
    revert H. apply hook_wf_frame; [exact K|now rewrite settle_inject_hook].
  - revert H. apply hook_wf_frame; [exact K|now rewrite on_timeout_hook].
  - revert H. apply hook_wf_frame; [exact K|reflexivity].
  - intros l I. now elim I.
  - revert H. apply hook_wf_frame; [exact K|now rewrite call_hook_hook].
Qed.

Lemma run_hook_wf d es : hook_wf (run es (initial d)).
Proof.
  assert (I : hook_wf (initial d)) by (intros l H; now elim H).
  unfold run. revert I. generalize (initial d).
  induction es as [|e es IH]; intros w I; cbn; [exact I|].
  apply IH. now apply hook_wf_step.
Qed.

(** X10.  Hooks pile up.  [_initSDK] chains the hook it finds, and nothing
    takes a hook out of the chain when its load is settled; so in every
    world the loader can reach, with the SDK in [window.FB], one call of
    [window.fbAsyncInit] that is not cut short runs [FB.init] once for
    every load chained in it: after a timeout and a retry, twice.  A call
    in which the hook of the page, at the end of the chain, throws is cut
    short before the first [FB.init] and changes nothing. *)
Theorem hook_call_inits_once_per_chained_load :
  forall (d : Document) (es : list Event) (sdk : FacebookStatic) (k : HookCall),
    let w := run es (initial d) in
    (window_FB w = Some sdk ->
     aborts k (window_fbAsyncInit w) = false ->
     init_calls (effects (step (CallHook k) w))
     = init_calls (effects w) + length (hooked (window_fbAsyncInit w))) /\
    (aborts k (window_fbAsyncInit w) = true -> step (CallHook k) w = w).
Proof.
  intros d es sdk k w. split.
  - intros F N. cbn [step].
    apply call_hook_init_calls with sdk; [exact N|exact F|].
    apply (run_hook_wf d es).
  - intros B. cbn [step]. now rewrite call_hook_aborts.
Qed.

Lemma hook_call_inits_once_per_chained_load_witness :
  (init_calls (effects (step (CallHook plain_call)
     (run [AssignHook; CallLoadSDK sample_composable; ScriptLoad 0; Microtask;
          Timeout 0; Microtask; CallLoadSDK sample_composable; Microtask;
          AssignFB sample_FB]
        (initial sample_document))))
   = init_calls (effects
       (run [AssignHook; CallLoadSDK sample_composable; ScriptLoad 0; Microtask;
          Timeout 0; Microtask; CallLoadSDK sample_composable; Microtask;
          AssignFB sample_FB]
          (initial sample_document)))
     + length (hooked (window_fbAsyncInit
       (run [AssignHook; CallLoadSDK sample_composable; ScriptLoad 0; Microtask;
          Timeout 0; Microtask; CallLoadSDK sample_composable; Microtask;
          AssignFB sample_FB]
          (initial sample_document))))) /\
  length (hooked (window_fbAsyncInit
    (run [AssignHook; CallLoadSDK sample_composable; ScriptLoad 0; Microtask;
          Timeout 0; Microtask; CallLoadSDK sample_composable; Microtask;
          AssignFB sample_FB]
       (initial sample_document)))) = 2 /\
  step (CallHook thrown_call)
    (run [AssignHook; CallLoadSDK sample_composable; ScriptLoad 0; Microtask;
          Timeout 0; Microtask; CallLoadSDK sample_composable; Microtask;
          AssignFB sample_FB]
       (initial sample_document))
  = run [AssignHook; CallLoadSDK sample_composable; ScriptLoad 0; Microtask;
          Timeout 0; Microtask; CallLoadSDK sample_composable; Microtask;
          AssignFB sample_FB]
      (initial sample_document).
Proof.
  split; [|split; [vm_compute; reflexivity|]].
  - refine (proj1 (@hook_call_inits_once_per_chained_load sample_document
              [AssignHook; CallLoadSDK sample_composable; ScriptLoad 0; Microtask;
          Timeout 0; Microtask; CallLoadSDK sample_composable; Microtask;
          AssignFB sample_FB]
              sample_FB plain_call) _ _); vm_compute; reflexivity.
  - refine (proj2 (@hook_call_inits_once_per_chained_load sample_document
              [AssignHook; CallLoadSDK sample_composable; ScriptLoad 0; Microtask;
          Timeout 0; Microtask; CallLoadSDK sample_composable; Microtask;
          AssignFB sample_FB]
              sample_FB thrown_call) _); vm_compute; reflexivity.
Defined.

(** ** One load at a time *)

Lemma calm_refl w : calm w w.
Proof.
  split; [reflexivity|]. split; [auto|].
  intros l t G. exists t. auto.
Qed.

Lemma calm_trans w1 w2 w3 : calm w1 w2 -> calm w2 w3 -> calm w1 w3.
Proof.
  intros (P1 & R1 & L1) (P2 & R2 & L2). split; [congruence|]. split; [auto|].
  intros l t3 G3. destruct (L2 l t3 G3) as (t2 & G2 & S2 & I2).
  destruct (L1 l t2 G2) as (t1 & G1 & S1 & I1).
  exists t1. split; [exact G1|]. split; [congruence|].
  intros I. destruct (I2 I) as [J|J]; [|now right].
  destruct (I1 J) as [K|K]; [now left|right; auto].
Qed.

Lemma calm_same w w' :
  loads w' = loads w -> _loadPromise w' = _loadPromise w ->
  (_isReady w = true -> _isReady w' = true) -> calm w w'.
Proof.
  intros L P R. split; [exact P|]. split; [exact R|].
  intros l t G. exists t. unfold get_load in *. rewrite <- L. auto.
Qed.

Lemma calm_alter l f w :
  (forall t, get_load l w = Some t ->
             promise_of (f t) = promise_of t /\
             (init (f t) = Fulfilled -> init t = Fulfilled \/ _isReady w = true)) ->
  calm w (alter_load l f w).
Proof.
  intros F. split; [reflexivity|]. split; [auto|].
  intros n t' G. unfold get_load, alter_load in G. revert G. fields.
  rewrite nth_error_alter. destruct (Nat.eqb_spec l n) as [->|_].
  - destruct (nth_error (loads w) n) as [t|] eqn:G; [|discriminate].
    intros H. injection H as <-. exists t. split; [exact G|]. now apply F.
  - intros G. exists t'. auto.
Qed.

Lemma serial_calm w w' : calm w w' -> serial w -> serial w'.
Proof.
  intros (P & R & L) (S1 & S2 & S3). split; [|split].
  - intros l t' G' Q. destruct (L l t' G') as (t & G & E & _).
    rewrite P. apply (S1 l t G). congruence.
  - intros l t' G' Q I. destruct (L l t' G') as (t & G & E & J).
    destruct (J I) as [K|K]; [|exact K].
    apply R, (S2 l t G); congruence.
  - intros l t' G' Q. destruct (L l t' G') as (t & G & E & _).
    destruct (S3 l t G) as [A B]; [congruence|]. split; [now apply R|].
    intros l2 t2' G2' Q2. destruct (L l2 t2' G2') as (t2 & G2 & E2 & _).
    apply (B l2 t2 G2). congruence.
Qed.

(** The body of the pending load [l] returns or throws. *)
Lemma serial_finish l r t w w' :
  serial w ->
  get_load l w = Some t -> promise_of t = Pending ->
  r <> Pending ->
  loads w' = alter (set_stage (Done r)) l (loads w) ->
  (r = Fulfilled -> _isReady w' = true) ->
  serial w'.
Proof.
  intros (S1 & S2 & S3) G Q N L R.
  assert (D : forall n t', get_load n w' = Some t' ->
                           (n = l /\ promise_of t' = r) \/
                           (n <> l /\ get_load n w = Some t')).
  { intros n t' G'. unfold get_load in G', G |- *. rewrite L, nth_error_alter in G'.
    destruct (Nat.eqb_spec l n) as [->|E].
    - left. rewrite G in G'. injection G' as <-. split; reflexivity.
    - right. split; [congruence|exact G']. }
  assert (NP : forall n t', get_load n w' = Some t' -> promise_of t' <> Pending).
  { intros n t' G' Q'. destruct (D n t' G') as [[_ E]|[E G0]]; [congruence|].
    pose proof (S1 n t' G0 Q') as P1. pose proof (S1 l t G Q) as P2. congruence. }
  split; [|split].
  - intros n t' G' Q'. now elim (NP n t' G').
  - intros n t' G' Q'. now elim (NP n t' G').
  - intros n t' G' Q'. split; [|exact NP].
    destruct (D n t' G') as [[_ E]|[E G0]]; [apply R; congruence|].
    destruct (S3 n t' G0 Q') as [_ B]. now elim (B l t G).
Qed.

Lemma settle_inject_calm l r w : calm w (settle_inject l r w).
Proof.
  unfold settle_inject. destruct (get_load l w) as [t|]; [|apply calm_refl].
  destruct (is_pending (inject t)); [|apply calm_refl].
  eapply calm_trans; [|apply calm_same; [reflexivity|reflexivity|auto]].
  apply calm_alter. intros t0 _. split; [reflexivity|auto].
Qed.

Lemma settle_init_calm l r w :
  (r = Fulfilled -> _isReady w = true) -> calm w (settle_init l r w).
Proof.
  intros R. unfold settle_init. destruct (get_load l w) as [t|]; [|apply calm_refl].
  destruct (is_pending (init t)); [|apply calm_refl].
  eapply calm_trans; [|apply calm_same; [reflexivity|reflexivity|auto]].
  apply calm_alter. intros t0 _. split; [reflexivity|]. cbn. auto.
Qed.

Lemma settle_once_calm l r w :
  (r = Fulfilled -> _isReady w = true) -> calm w (settle_once l r w).
Proof.
  intros R. unfold settle_once. destruct (get_load l w) as [t|]; [|apply calm_refl].
  destruct (settled t); [apply calm_refl|].
  eapply calm_trans; [|apply settle_init_calm; exact R].
  eapply calm_trans;
    [|apply calm_alter; intros t0 _; unfold clearTimeout; destruct (timeout t0);
      (split; [reflexivity|now left])].
  apply calm_alter. intros t0 _. split; [reflexivity|now left].
Qed.

Lemma on_timeout_calm l w : calm w (on_timeout l w).
Proof.
  unfold on_timeout. destruct (get_load l w) as [t|]; [|apply calm_refl].
  destruct (timeout t); try apply calm_refl.
  assert (A : calm w (alter_load l (set_timeout Fired) w)).
  { apply calm_alter. intros t0 _. split; [reflexivity|now left]. }
  destruct (settled t); [exact A|].
  eapply calm_trans; [exact A|].
  eapply calm_trans; [|apply settle_init_calm; discriminate].
  apply calm_alter. intros t0 _. split; [reflexivity|now left].
Qed.

Lemma finalise_calm w : calm w (_finalise w).
Proof. apply calm_same; reflexivity. Qed.

Lemma call_hook_calm k h w : calm w (fst (call_hook k h w)).
Proof.
  revert w. induction h as [| |l prev IH]; intros w; cbn [call_hook fst];
    try apply calm_refl.
  specialize (IH w). destruct (call_hook k prev w) as [w1 thrown].
  cbn [fst] in IH. destruct thrown; cbn [fst]; [exact IH|].
  destruct (get_load l w1) as [t|]; [|exact IH].
  eapply calm_trans; [exact IH|].
  destruct (window_FB w1) as [fb|]; [|apply settle_once_calm; discriminate].
  destruct (fb_init fb _).
  - eapply calm_trans; [|apply settle_once_calm; discriminate].
    apply calm_same; [reflexivity|reflexivity|auto].
  - eapply calm_trans; [|apply settle_once_calm; reflexivity].
    apply calm_same; reflexivity.
Qed.

Lemma initSDK_calm c l w : calm w (_initSDK c l w).
Proof.
  unfold _initSDK. destruct (_isReady w) eqn:R.
  - apply calm_alter. intros t _. split; [reflexivity|now right].
  - destruct (appId c =? "").
    + apply calm_alter. intros t _. split; [reflexivity|discriminate].
    + destruct (window_FB w).
      * eapply calm_trans; [apply finalise_calm|].
        apply calm_alter. intros t _. split; [reflexivity|now right].
      * eapply calm_trans; [|apply calm_same; [reflexivity|reflexivity|auto]].
        eapply calm_trans;
          [|apply calm_alter; intros t _; (split; [reflexivity|now left])].
        apply calm_alter. intros t _. split; [reflexivity|now left].
Qed.

Lemma serial_resume l w : serial w -> serial (resume l w).
Proof.
  intros S. unfold resume. destruct (get_load l w) as [t|] eqn:G; [|exact S].
  assert (C : forall err, serial (catch err l w) \/ promise_of t <> Pending).
  { intros err. destruct (promise_of t) eqn:Q; try (right; discriminate).
    left. eapply serial_finish with (r := Rejected err);
      [exact S|exact G|exact Q|discriminate|reflexivity|discriminate]. }
  destruct (stage t) eqn:St; [| |exact S].
  - destruct (inject t) as [| |err]; [exact S| |].
    + revert S. apply serial_calm.
      eapply calm_trans; [apply (@calm_alter l (set_stage AwaitInit) w)|].
      { intros t0 G0. rewrite G in G0. injection G0 as <-.
        unfold promise_of. rewrite St. split; [reflexivity|now left]. }
      eapply calm_trans; [apply initSDK_calm|].
      unfold await.
      match goal with
      | |- calm ?x (if ?b then _ else _) => destruct b
      end; [apply calm_refl|apply calm_same; [reflexivity|reflexivity|auto]].
    + destruct (C err) as [H|H]; [exact H|].
      elim H. unfold promise_of. now rewrite St.
  - destruct (init t) as [| |err] eqn:I; [exact S| |].
    + eapply serial_finish with (r := Fulfilled);
        [exact S|exact G| |discriminate|reflexivity|].
      * unfold promise_of. now rewrite St.
      * intros _. destruct S as (_ & S2 & _). apply (S2 l t G); [|exact I].
        unfold promise_of. now rewrite St.
    + destruct (C err) as [H|H]; [exact H|].
      elim H. unfold promise_of. now rewrite St.
Qed.

Lemma loadSDK_loads c w :
  _isReady w = false -> _loadPromise w = None ->
  exists p s,
    loads (fst (loadSDK c w))
    = loads w ++ [mkLoad c AwaitInject p s Pending false NoTimer] /\
    _isReady (fst (loadSDK c w)) = false /\
    _loadPromise (fst (loadSDK c w)) = Some (length (loads w)).
Proof.
  intros R P. unfold loadSDK, _injectScript. rewrite R, P. fields.
  destruct (getElementById SDK_SCRIPT_ID (document w));
    [|destruct (find is_script (document w))];
    fields; eexists; eexists; (split; [reflexivity|]); split; auto.
Qed.

Lemma serial_loadSDK c w : serial w -> serial (fst (loadSDK c w)).
Proof.
  intros S.
  destruct (_isReady w) eqn:R; [unfold loadSDK; now rewrite R|].
  destruct (_loadPromise w) as [l0|] eqn:P; [unfold loadSDK; now rewrite R, P|].
  destruct (loadSDK_loads c w R P) as (p & s & L & R' & P').
  destruct S as (S1 & S2 & S3).
  assert (D : forall n t', get_load n (fst (loadSDK c w)) = Some t' ->
                           (n = length (loads w) /\
                            t' = mkLoad c AwaitInject p s Pending false NoTimer) \/
                           get_load n w = Some t').
  { intros n t' G'. unfold get_load in G' |- *. rewrite L in G'.
    destruct (Nat.lt_ge_cases n (length (loads w))) as [H|H].
    - right. now rewrite nth_error_app1 in G' by exact H.
    - left. rewrite nth_error_app2 in G' by exact H.
      destruct (n - length (loads w)) as [|k] eqn:E.
      + cbn in G'. injection G' as <-. split; [lia|reflexivity].
      + cbn in G'. now destruct k. }
  split; [|split].
  - intros n t' G' Q. destruct (D n t' G') as [[-> _]|G0]; [exact P'|].
    pose proof (S1 n t' G0 Q). congruence.
  - intros n t' G' Q I. destruct (D n t' G') as [[_ ->]|G0]; [discriminate I|].
    pose proof (S1 n t' G0 Q). congruence.
  - intros n t' G' Q. destruct (D n t' G') as [[_ ->]|G0]; [discriminate Q|].
    destruct (S3 n t' G0 Q) as [A _]. congruence.
Qed.

Lemma serial_step e w :
  (match e with CallResetSDK => false | _ => true end) = true ->
  serial w -> serial (step e w).
Proof.
  intros N S. destruct e; cbn [step]; try discriminate N.
  - now apply serial_loadSDK.
  - destruct (microtasks w) as [|l rest]; [exact S|]. apply serial_resume.
    revert S. apply serial_calm. apply calm_same; [reflexivity|reflexivity|auto].
  - destruct (get_load l w) as [t|]; [|exact S]. destruct (script t); [|exact S].
    revert S. apply serial_calm, settle_inject_calm.
  - destruct (get_load l w) as [t|]; [|exact S]. destruct (script t); [|exact S].
    revert S. apply serial_calm, settle_inject_calm.
  - revert S. apply serial_calm, on_timeout_calm.
  - revert S. apply serial_calm, calm_same; [reflexivity|reflexivity|auto].
  - revert S. apply serial_calm, calm_same; [reflexivity|reflexivity|auto].
  - revert S. apply serial_calm, call_hook_calm.
Qed.

Lemma run_serial d es : no_reset es = true -> serial (run es (initial d)).
Proof.
  assert (I : serial (initial d)).
  { split; [|split]; intros l t G; unfold get_load in G; cbn in G;
      now destruct l. }
  unfold run. revert I. generalize (initial d).
  induction es as [|e es IH]; intros w I N; cbn; [exact I|].
  cbn in N. apply Bool.andb_true_iff in N. destruct N as [N1 N2].
  apply IH; [|exact N2]. now apply serial_step.
Qed.

(** X11.  Loads come one at a time as long as [resetSDK] is not called: in
    every world such a run reaches, a load whose promise is pending is the
    one [_loadPromise] holds, so no two are pending; and once the promise of
    any load is fulfilled, the loader is ready with its handle and without
    an error, and no load is pending. *)
Theorem loads_are_serial_without_reset :
  forall (d : Document) (es : list Event),
    no_reset es = true ->
    let w := run es (initial d) in
    (forall l t, get_load l w = Some t -> promise_of t = Pending ->
                 _loadPromise w = Some l) /\
    (forall l l' t t', get_load l w = Some t -> promise_of t = Pending ->
                       get_load l' w = Some t' -> promise_of t' = Pending ->
                       l = l') /\
    (forall l, promise l w = Fulfilled ->
               _isReady w = true /\ _FB w <> None /\ _error w = None /\
               forall l' t', get_load l' w = Some t' -> promise_of t' <> Pending).
Proof.
  intros d es N w.
  destruct (run_serial d es N) as (S1 & S2 & S3). fold w in S1, S2, S3.
  split; [exact S1|]. split.
  - intros l l' t t' G Q G' Q'.
    pose proof (S1 l t G Q). pose proof (S1 l' t' G' Q'). congruence.
  - intros l Q. unfold promise in Q.
    destruct (get_load l w) as [t|] eqn:G; [|discriminate Q].
    destruct (S3 l t G Q) as [R B].
    destruct (run_invariant d es) as (I & _). fold w in I.
    destruct (I R) as [F E]. auto.
Qed.

Lemma loads_are_serial_without_reset_witness :
  _isReady (run [CallLoadSDK sample_composable; ScriptLoad 0; Microtask;
                 AssignFB sample_FB; CallHook plain_call; Microtask]
              (initial sample_document)) = true.
Proof.
  refine (proj1 (proj2 (proj2
    (@loads_are_serial_without_reset sample_document
       [CallLoadSDK sample_composable; ScriptLoad 0; Microtask;
        AssignFB sample_FB; CallHook plain_call; Microtask] eq_refl)) 0 _)).
  vm_compute. reflexivity.
Defined.

(** ** After the load *)

(** X12.  A first load that succeeds, on a page whose own hook, if it has
    one, returns, leaves its handlers behind, and they are harmless but for
    one: the expiry of the timer, a load or an error event of the script,
    and a job change nothing any more; a second call of
    [window.fbAsyncInit], which stays installed, calls [FB.init] once more
    and leaves the state as it is, unless the hook of the page throws this
    time, which cuts the call short before [FB.init]. *)
Theorem events_after_a_successful_load :
  forall (c : Composable) (w : World) (first : Element) (sdk : FacebookStatic)
         (k : HookCall),
    idle w ->
    _loadPromise w = None ->
    microtasks w = [] ->
    window_FB w = None ->
    not_ours (window_fbAsyncInit w) = true ->
    aborts k (window_fbAsyncInit w) = false ->
    getElementById SDK_SCRIPT_ID (document w) = None ->
    find is_script (document w) = Some first ->
    appId c <> "" ->
    fb_init sdk (init_params c) = None ->
    let n := length (loads w) in
    let w' := run [CallLoadSDK c; ScriptLoad n; Microtask;
                   AssignFB sdk; CallHook k; Microtask] w in
    (_isReady w' = true /\ _FB w' = Some sdk /\ promise n w' = Fulfilled) /\
    step (Timeout n) w' = w' /\
    step (ScriptLoad n) w' = w' /\
    step (ScriptError n) w' = w' /\
    step Microtask w' = w' /\
    (forall k', aborts k' (window_fbAsyncInit w) = false ->
                step (CallHook k') w' = log (FBInit (init_params c)) w') /\
    (forall k', aborts k' (window_fbAsyncInit w) = true ->
                step (CallHook k') w' = w').
Proof.
  intros c w first sdk k [_ R] P J F N B T Sc A I n w'.
  assert (E : w' = loaded c sdk w).
  { subst w' n. do 3 rewrite run_cons.
    erewrite step_start by eassumption.
    erewrite step_script_load by eassumption.
    erewrite step_init_waits by eassumption.
    eapply run_hook; eassumption. }
  clearbody w'. subst w' n. clear B.
  destruct w as [fb rdy ldg err lp wfb hook d ls mt efs].
  cbn [_isReady _loadPromise microtasks document window_FB window_fbAsyncInit]
    in R, P, J, F, N, T, Sc |- *.
  subst rdy lp mt wfb. unfold init_params in I.
  split.
  { split; [reflexivity|]. split; [reflexivity|].
    unfold promise, get_load, loaded. cbn [loads]. now rewrite nth_error_last. }
  split; [compute_step ltac:(fun H => idtac); reflexivity|].
  split; [compute_step ltac:(fun H => idtac); reflexivity|].
  split; [compute_step ltac:(fun H => idtac); reflexivity|].
  split; [compute_step ltac:(fun H => idtac); reflexivity|].
  split.
  - intros k' B. unfold aborts in B.
    destruct hook; try discriminate N; cbn [page_hooked andb] in B;
      compute_step ltac:(fun H => rewrite ?B, ?I in H); reflexivity.
  - intros k' B. cbn [step]. unfold loaded at 1. cbn [window_fbAsyncInit].
    rewrite call_hook_aborts; [reflexivity|exact B].
Qed.

Lemma events_after_a_successful_load_witness :
  step (CallHook plain_call)
    (run [CallLoadSDK sample_composable; ScriptLoad 0; Microtask;
          AssignFB sample_FB; CallHook plain_call; Microtask]
       (initial sample_document))
  = log (FBInit (init_params sample_composable))
      (run [CallLoadSDK sample_composable; ScriptLoad 0; Microtask;
            AssignFB sample_FB; CallHook plain_call; Microtask]
         (initial sample_document)).
Proof.
  refine (proj1 (proj2 (proj2 (proj2 (proj2 (proj2
    (@events_after_a_successful_load sample_composable (initial sample_document)
       (mkElement "script" "" "/src/main.ts") sample_FB plain_call
       (conj eq_refl eq_refl) eq_refl eq_refl eq_refl eq_refl eq_refl eq_refl
       eq_refl _ eq_refl)))))) plain_call eq_refl).
  discriminate.
Defined.

End LoaderExtras.

(** * More of the launcher *)

Module LauncherExtras.
Import Launcher LauncherFacts.

Lemma emitted_app l1 l2 : emitted (l1 ++ l2) = emitted l1 ++ emitted l2.
Proof.
  induction l1 as [|a l1 IH]; [reflexivity|].
  destruct a; cbn; now rewrite ?IH.
Qed.

(** What a launch from a ready loader does to the component. *)
Lemma launch_ready w fb c :
  Loader._FB w = Some fb -> Loader._isReady w = true ->
  launchSignup w c =
  mkComponent (configId c) [] true
    (actions c ++ [AddListener; Login (fb_name fb) (login_options c)]).
Proof.
  intros F R. unfold launchSignup. rewrite F, R.
  unfold act, addEventListener, set_listening, set_sessionData, login_options.
  cbn. now rewrite <- app_assoc.
Qed.

Lemma is_str_eq s v : is_str s v = true -> v = JSString s.
Proof.
  destruct v; cbn; try discriminate. intros H. apply String.eqb_eq in H.
  now subst.
Qed.

Section WithParser.

Variable JSON_parse : string -> option JSValue.

Abbreviation payload_of := (payload_of JSON_parse).
Abbreviation _onMessage := (_onMessage JSON_parse).
Abbreviation is_finish := (is_finish JSON_parse).
Abbreviation run := (run JSON_parse).

(** X13.  Whatever the message, [_onMessage] does one of three things:
    nothing; or it replaces the session buffer by the two ids of the
    payload; or it emits one [cancel] with the step of the payload.  So a
    message never emits [success] or [error], never emits twice, never
    throws, and never touches the registration of the listener. *)
Theorem message_does_one_of_three :
  forall (data : JSValue) (c : Component),
    _onMessage data c = c \/
    (exists pid wid,
        _onMessage data c
        = set_sessionData [("phone_number_id", pid); ("waba_id", wid)] c) \/
    (exists current_step,
        _onMessage data c = emit (cancel (Some current_step)) c).
Proof.
  intros data c.
  unfold Launcher._onMessage, onMessage_try, bind, eval, ret, exec.
  split_cases;
    try (left; reflexivity);
    try (right; left; eexists; eexists; reflexivity);
    try (right; right; eexists; reflexivity);
    exfalso;
    repeat match goal with
           | H : is_str _ _ = true |- _ => apply is_str_eq in H
           end;
    subst; try congruence;
    repeat match goal with
           | H : Some _ = Some _ |- _ => injection H as H
           end;
    subst; cbn in *; discriminate.
Qed.

(** Messages do not reach a component that is not listening. *)
Lemma run_messages_deaf w msgs c :
  listening c = false -> run w (map Message msgs) c = c.
Proof.
  intros L. induction msgs as [|m msgs IH]; [reflexivity|].
  cbn [map]. rewrite launch_run_cons. cbn [Launcher.step]. now rewrite L.
Qed.

Lemma login_callback_listening resp c : listening (login_callback resp c) = false.
Proof.
  unfold login_callback. destruct (authResponse resp) as [auth|]; [|reflexivity].
  now destruct (falsy (code auth) && falsy (accessToken auth)).
Qed.

(** X14.  The login callback unregisters the listener before anything
    else, so the messages that arrive after it are dropped: they write no
    buffer and emit nothing, whatever they are. *)
Theorem messages_after_the_callback_are_dropped :
  forall (w : Loader.World) (resp : FacebookLoginResponse) (msgs : list JSValue)
         (c : Component),
    run w (Callback resp :: map Message msgs) c = login_callback resp c.
Proof.
  intros w resp msgs c. rewrite launch_run_cons. cbn [Launcher.step].
  apply run_messages_deaf, login_callback_listening.
Qed.

(** X15.  Two launches share the one listener, and the callback of the
    first unregisters it: the messages meant for the second launch are
    dropped, and its callback, on an authorization with a credential, emits
    [success] without ids. *)
Theorem second_launch_loses_its_messages :
  forall (w : Loader.World) (fb : FacebookStatic) (c : Component)
         (r1 r2 : FacebookLoginResponse) (auth : FacebookAuthResponse)
         (msgs : list JSValue),
    Loader._FB w = Some fb ->
    Loader._isReady w = true ->
    authResponse r2 = Some auth ->
    falsy (code auth) && falsy (accessToken auth) = false ->
    let before := run w [Click; Click; Callback r1] c in
    run w (Click :: Click :: Callback r1 :: map Message msgs) c = before /\
    actions (run w (Click :: Click :: Callback r1 :: map Message msgs ++
                    [Callback r2]) c)
    = actions before ++
      [RemoveListener;
       Emit (success {| success_code := match code auth with
                                        | Some x => Some x
                                        | None => accessToken auth
                                        end;
                        wabaId := JSUndefined;
                        phoneNumberId := JSUndefined |})].
Proof.
  intros w fb c r1 r2 auth msgs F R A G before.
  assert (E : run w (Click :: Click :: Callback r1 :: map Message msgs) c = before).
  { subst before.
    change (Click :: Click :: Callback r1 :: map Message msgs)
      with ([Click; Click] ++ Callback r1 :: map Message msgs).
    rewrite launch_run_app, launch_run_cons. cbn [Launcher.step].
    apply run_messages_deaf, login_callback_listening. }
  split; [exact E|].
  change (Click :: Click :: Callback r1 :: map Message msgs ++ [Callback r2])
    with ((Click :: Click :: Callback r1 :: map Message msgs) ++ [Callback r2]).
  rewrite launch_run_app, E.
  assert (B : _sessionData before = []).
  { subst before. cbn [Launcher.run fold_left Launcher.step].
    rewrite (@launch_ready w fb c F R).
    rewrite (@launch_ready w fb _ F R).
    unfold login_callback. cbn.
    destruct (authResponse r1) as [a1|]; [|reflexivity].
    now destruct (falsy (code a1) && falsy (accessToken a1)). }
  cbn [Launcher.run fold_left Launcher.step].
  rewrite (login_callback_success _ _ A G), B. reflexivity.
Qed.

(** X16.  A launch starts from an empty buffer: whatever an earlier launch
    left in it, when no [FINISH] arrives before the callback, [success] is
    emitted without ids. *)
Theorem launch_forgets_the_previous_session :
  forall (w : Loader.World) (fb : FacebookStatic) (c : Component)
         (msgs : list JSValue) (resp : FacebookLoginResponse)
         (auth : FacebookAuthResponse),
    Loader._FB w = Some fb ->
    Loader._isReady w = true ->
    Forall (fun m => is_finish m = false) msgs ->
    authResponse resp = Some auth ->
    falsy (code auth) && falsy (accessToken auth) = false ->
    let before := run w (Click :: map Message msgs) c in
    actions (Launcher.step JSON_parse w (Callback resp) before)
    = actions before ++
      [RemoveListener;
       Emit (success {| success_code := match code auth with
                                        | Some x => Some x
                                        | None => accessToken auth
                                        end;
                        wabaId := JSUndefined;
                        phoneNumberId := JSUndefined |})].
Proof.
  intros w fb c msgs resp auth F R N A G before.
  assert (B : _sessionData before = []).
  { subst before. rewrite launch_run_cons, run_messages_buffer by exact N.
    cbn [Launcher.step]. now rewrite (@launch_ready w fb c F R). }
  cbn [Launcher.step].
  rewrite (login_callback_success _ _ A G), B. reflexivity.
Qed.

(** X17.  The two ways of a cancellation are not told apart: when the
    popup posts a [CANCEL] or an [ERROR] with its step and the callback then
    fires without an [authResponse], the component emits [cancel] twice,
    first with the step and then with no argument. *)
Theorem cancellation_is_emitted_twice :
  forall (w : Loader.World) (fb : FacebookStatic) (c : Component)
         (m payload d current_step : JSValue) (event : string)
         (resp : FacebookLoginResponse),
    Loader._FB w = Some fb ->
    Loader._isReady w = true ->
    payload_of m = Some payload ->
    get payload "type" = Some (JSString SENTINEL) ->
    get payload "event" = Some (JSString event) ->
    event = "CANCEL" \/ event = "ERROR" ->
    get payload "data" = Some d ->
    get d "current_step" = Some current_step ->
    authResponse resp = None ->
    emitted (actions (run w [Click; Message m; Callback resp] c))
    = emitted (actions c) ++ [cancel (Some current_step); cancel None].
Proof.
  intros w fb c m payload d current_step event resp F R Hp Ht He Hev Hd Hs A.
  cbn [Launcher.run fold_left Launcher.step].
  rewrite (@launch_ready w fb c F R). cbn [listening].
  assert (M : forall c0, _onMessage m c0 = emit (cancel (Some current_step)) c0).
  { intros c0. unfold Launcher._onMessage, onMessage_try, bind, eval, ret, exec.
    rewrite Hp, Ht. cbn. rewrite He.
    destruct Hev; subst event; cbn; rewrite Hd, Hs; reflexivity. }
  rewrite M. unfold login_callback. rewrite A. cbn.
  rewrite !emitted_app. cbn. now rewrite !app_nil_r, <- app_assoc.
Qed.

End WithParser.

Lemma second_launch_loses_its_messages_witness :
  actions (run reject_all ready_loader
             (Click :: Click :: Callback (mkResponse None unknown)
              :: map Message [finish_W1_P1]
              ++ [Callback (mkResponse (Some auth_abc) connected)])
             (mounted None))
  = actions (run reject_all ready_loader
               [Click; Click; Callback (mkResponse None unknown)] (mounted None)) ++
    [RemoveListener;
     Emit (success {| success_code := Some "abc";
                      wabaId := JSUndefined;
                      phoneNumberId := JSUndefined |})].
Proof.
  exact (proj2 (@second_launch_loses_its_messages reject_all ready_loader
                  Loader.sample_FB (mounted None) (mkResponse None unknown)
                  (mkResponse (Some auth_abc) connected) auth_abc [finish_W1_P1]
                  eq_refl eq_refl eq_refl eq_refl)).
Defined.

Lemma launch_forgets_the_previous_session_witness :
  actions (Launcher.step reject_all ready_loader
             (Callback (mkResponse (Some auth_abc) connected))
             (run reject_all ready_loader (Click :: map Message [cancel_at_step])
                (set_sessionData [("waba_id", JSString "W0")] (mounted None))))
  = actions (run reject_all ready_loader (Click :: map Message [cancel_at_step])
               (set_sessionData [("waba_id", JSString "W0")] (mounted None))) ++
    [RemoveListener;
     Emit (success {| success_code := Some "abc";
                      wabaId := JSUndefined;
                      phoneNumberId := JSUndefined |})].
Proof.
  exact (@launch_forgets_the_previous_session reject_all ready_loader
           Loader.sample_FB
           (set_sessionData [("waba_id", JSString "W0")] (mounted None))
           [cancel_at_step] (mkResponse (Some auth_abc) connected) auth_abc
           eq_refl eq_refl
           (@Forall_cons _ (fun m => is_finish reject_all m = false)
              cancel_at_step [] eq_refl (Forall_nil _))
           eq_refl eq_refl).
Defined.

Lemma cancellation_is_emitted_twice_witness :
  emitted (actions (run reject_all ready_loader
                      [Click; Message cancel_at_step;
                       Callback (mkResponse None unknown)] (mounted None)))
  = emitted (actions (mounted None)) ++
    [cancel (Some (JSString "PHONE_NUMBER_SETUP")); cancel None].
Proof.
  exact (@cancellation_is_emitted_twice reject_all ready_loader Loader.sample_FB
           (mounted None) cancel_at_step cancel_at_step
           (JSObject [("current_step", JSString "PHONE_NUMBER_SETUP")])
           (JSString "PHONE_NUMBER_SETUP") "CANCEL" (mkResponse None unknown)
           eq_refl eq_refl eq_refl eq_refl eq_refl (or_introl eq_refl)
           eq_refl eq_refl eq_refl).
Defined.

(** X18.  The guard of the callback tests [code] and [accessToken] with
    [!], which takes the empty string for missing, and the payload picks
    with [??], which does not: an [authResponse] whose [code] is the empty
    string and whose token is there passes the guard, and [success] carries
    the empty code, not the token. *)
Theorem empty_code_hides_the_token :
  forall (resp : FacebookLoginResponse) (auth : FacebookAuthResponse)
         (token : string) (c : Component),
    authResponse resp = Some auth ->
    code auth = Some "" ->
    accessToken auth = Some token ->
    token <> "" ->
    emitted (actions (login_callback resp c))
    = emitted (actions c) ++
      [success {| success_code := Some "";
                  wabaId := lookup "waba_id" (_sessionData c);
                  phoneNumberId := lookup "phone_number_id" (_sessionData c) |}].
Proof.
  intros resp auth token c A C T N.
  assert (G : falsy (code auth) && falsy (accessToken auth) = false).
  { rewrite C, T. cbn. now apply String.eqb_neq. }
  rewrite (login_callback_success _ c A G), emitted_app, C. reflexivity.
Qed.

Lemma empty_code_hides_the_token_witness :
  emitted (actions (login_callback (mkResponse (Some auth_empty_code) connected)
                      (mounted None)))
  = emitted (actions (mounted None)) ++
    [success {| success_code := Some "";
                wabaId := lookup "waba_id" (_sessionData (mounted None));
                phoneNumberId := lookup "phone_number_id"
                                   (_sessionData (mounted None)) |}].
Proof.
  refine (@empty_code_hides_the_token (mkResponse (Some auth_empty_code) connected)
            auth_empty_code "token" (mounted None) eq_refl eq_refl eq_refl _).
  discriminate.
Defined.

(** X19.  The button and [launchSignup] agree.  In every world the loader
    can reach, when the button is enabled a click registers the listener
    and calls [FB.login] with the options of the component, on an empty
    buffer (the guard on the handle never stops it); when the button is
    disabled, a call of [launchSignup] does nothing. *)
Theorem button_enabled_iff_click_launches :
  forall (d : Loader.Document) (es : list Loader.Event) (c : Component),
    let w := Loader.run es (Loader.initial d) in
    (isDisabled w = false ->
     exists fb,
       Loader._FB w = Some fb /\
       launchSignup w c =
       mkComponent (configId c) [] true
         (actions c ++ [AddListener; Login (fb_name fb) (login_options c)])) /\
    (isDisabled w = true -> launchSignup w c = c).
Proof.
  intros d es c w.
  destruct (LoaderExtras.run_invariant d es) as (I1 & I2 & _). fold w in I1, I2.
  unfold Loader.ready, Loader.loading in I1, I2. unfold isDisabled. split.
  - intros H. apply Bool.orb_false_iff in H. destruct H as [H1 H2].
    apply Bool.negb_false_iff in H1.
    destruct (I1 H1) as [F _].
    destruct (Loader._FB w) as [fb|] eqn:E; [|now elim F].
    exists fb. split; [reflexivity|]. now apply launch_ready.
  - intros H.
    assert (R : Loader._isReady w = false).
    { apply Bool.orb_true_iff in H. destruct H as [H|H].
      - now apply Bool.negb_true_iff in H.
      - specialize (I2 H). now destruct (Loader._isReady w). }
    unfold launchSignup. rewrite R. now destruct (Loader._FB w).
Qed.

Lemma button_enabled_iff_click_launches_witness :
  launchSignup
    (Loader.run [Loader.CallLoadSDK Loader.sample_composable]
       (Loader.initial Loader.sample_document)) (mounted None)
  = mounted None.
Proof.
  exact (proj2 (@button_enabled_iff_click_launches Loader.sample_document
                  [Loader.CallLoadSDK Loader.sample_composable] (mounted None))
           eq_refl).
Defined.

(** X20.  What the template shows fits together, in every world the loader
    can reach: with an alert on display the button is disabled and reads
    Unavailable; while the loader loads the button is disabled and reads
    Loading SDK, and no alert is shown; an enabled button carries the label
    of the props and stands without an alert. *)
Theorem template_shows_one_state :
  forall (d : Loader.Document) (es : list Loader.Event) (label : string),
    let w := Loader.run es (Loader.initial d) in
    (forall m, alert w = Some m ->
               isDisabled w = true /\ buttonLabel w label = "Unavailable") /\
    (Loader._isLoading w = true ->
     isDisabled w = true /\ buttonLabel w label = "Loading SDK…" /\
     alert w = None) /\
    (isDisabled w = false -> buttonLabel w label = label /\ alert w = None).
Proof.
  intros d es label w.
  destruct (LoaderExtras.run_invariant d es) as (I1 & I2 & _). fold w in I1, I2.
  destruct (LoaderExtras.run_consistent d es) as (C1 & C2). fold w in C1, C2.
  unfold Loader.ready, Loader.loading in I1, I2.
  unfold isDisabled, buttonLabel, alert. split; [|split].
  - intros m H.
    destruct (Loader._error w) as [err|] eqn:E; [|discriminate H].
    destruct C2 as (R & L & _); [discriminate|].
    rewrite R, L. split; reflexivity.
  - intros L. destruct (C1 L) as [E _]. rewrite L, E.
    split; [apply Bool.orb_true_r|]. split; reflexivity.
  - intros H. apply Bool.orb_false_iff in H. destruct H as [H1 H2].
    apply Bool.negb_false_iff in H1.
    destruct (I1 H1) as [_ E]. rewrite H1, H2, E. split; reflexivity.
Qed.

Lemma template_shows_one_state_witness :
  isDisabled
    (Loader.run [Loader.CallLoadSDK Loader.anonymous_composable;
                 Loader.ScriptLoad 0; Loader.Microtask; Loader.Microtask]
       (Loader.initial Loader.sample_document)) = true /\
  buttonLabel
    (Loader.run [Loader.CallLoadSDK Loader.anonymous_composable;
                 Loader.ScriptLoad 0; Loader.Microtask; Loader.Microtask]
       (Loader.initial Loader.sample_document)) DEFAULT_LABEL = "Unavailable".
Proof.
  refine (proj1 (@template_shows_one_state Loader.sample_document
                   [Loader.CallLoadSDK Loader.anonymous_composable;
                    Loader.ScriptLoad 0; Loader.Microtask; Loader.Microtask]
                   DEFAULT_LABEL)
            (message Loader.MissingAppId) _).
  vm_compute. reflexivity.
Defined.

End LauncherExtras.
